(** * Postgres-Migration: the migration runner of [index.js]

    A shallow embedding of the runner, the properties its specification
    states about it, and further properties read off the code.  [index.js]
    holds two revisions of the program one after the other; the functions
    embedded here, [getDirectories], [transaction], [create],
    [fetchMigrations], [migrate] and [rollback], are those of the later
    revision, whose "Migration" table has a [version] column.  The first
    three read the same in the earlier revision.

    The program talks to three things it does not contain: the file system
    (module [fs]), a PostgreSQL server reached through a [pg] connection pool,
    and the wall clock.  They are fields of one [World] that every operation
    threads.

    - The file system is a tree of named nodes under [__dirname].  A path is
      the list of its segments, so [path.join] appends a segment and
      [directory.split('/').pop()] is the last segment.  The order of a
      folder's children is the order [readdirSync] enumerates them, which is
      left to the environment: no theorem assumes it unless it says so.
    - The server holds the committed ("durable") database and the
      transaction block of the pooled connection; the process uses one
      connection at a time.  The bookkeeping relation "Migration", when it
      exists, has the shape CREATE TABLE gives it: rows with a BIGINT primary
      key [version] and a VARCHAR(255) [name].  The rest of the database is
      an abstract [Schema], on which the text of an up or down script acts
      through [exec_script]; a script that fails may leave partial effects in
      the working copy of the transaction.  Scripts are taken not to touch
      the bookkeeping relation, and a unit's name not to break out of the
      quotes it is interpolated in.  This server takes a script as a whole,
      as a script does that carries no transaction control; module
      [Verbatim] is the runner on a server that obeys a COMMIT or ROLLBACK
      it finds in a script, and the atomicity theorems are stated there.
    - How the server reads the interpolated [${version}] where a BIGINT is
      expected is [sql_bigint]; the driver hands a BIGINT back as its decimal
      text ([show_bigint]).
    - Every round trip of the driver can be rejected: the [oracle] field
      lists the fate of the coming round trips.  A rejected round trip does
      not reach the server.
    - [Date.now()] reads the [clock] field; time passes between calls as the
      environment decides ([elapse]).
    - lodash's [camelCase] and [upperFirst] are taken as given.

    The file has the definitions first: the runner, then one concrete server
    and a few catalogs on which every theorem is run; the properties
    follow. *)

From Stdlib Require Import String Ascii List ZArith Bool Lia.
From Stdlib Require Import DecimalString DecimalPos DecimalZ Sorted.
Import ListNotations.
Local Open Scope string_scope.
Local Open Scope list_scope.

(** ** JavaScript values used by the runner *)

(** [s.split(sep)] for a one-character separator. *)
Fixpoint split (sep : ascii) (s : string) : list string :=
  match s with
  | EmptyString => [EmptyString]
  | String c rest =>
      if Ascii.eqb c sep then EmptyString :: split sep rest
      else match split sep rest with
           | [] => [String c EmptyString]
           | piece :: pieces => String c piece :: pieces
           end
  end.

(** [array.includes(x)] on an array of strings. *)
Definition includes (array : list string) (x : string) : bool :=
  existsb (String.eqb x) array.

(** [!query] on a string: only the empty string is falsy. *)
Definition falsy (query : string) : bool :=
  match query with EmptyString => true | String _ _ => false end.

(** A template literal renders [undefined] as the word. *)
Definition interpolate (value : option string) : string :=
  match value with Some s => s | None => "undefined" end.

(** A number rendered by a template literal, and a BIGINT as the driver
    returns it: decimal text. *)
Definition show_bigint (k : Z) : string :=
  NilZero.string_of_int (Z.to_int k).

(** ** Paths and the file system *)

Definition Path := list string.

Definition join (path : Path) (segment : string) : Path := path ++ [segment].

(** [path.split('/').pop()] *)
Definition basename (path : Path) : string := last path EmptyString.

#[warnings="-register-all"]
Inductive Node :=
| File (content : string)
| Folder (children : list (string * Node)).

Fixpoint assoc {A} (key : string) (l : list (string * A)) : option A :=
  match l with
  | [] => None
  | (k, v) :: rest => if String.eqb k key then Some v else assoc key rest
  end.

(** Replace the child called [key], or add it after the existing ones. *)
Fixpoint upsert {A} (key : string) (v : A) (l : list (string * A)) : list (string * A) :=
  match l with
  | [] => [(key, v)]
  | (k, x) :: rest =>
      if String.eqb k key then (k, v) :: rest else (k, x) :: upsert key v rest
  end.

Fixpoint lookup (path : Path) (node : Node) : option Node :=
  match path with
  | [] => Some node
  | segment :: rest =>
      match node with
      | File _ => None
      | Folder children =>
          match assoc segment children with
          | Some child => lookup rest child
          | None => None
          end
      end
  end.

(** Whether a regular file stands where the path needs a folder to go
    through. *)
Fixpoint file_on_the_way (path : Path) (node : Node) : bool :=
  match path, node with
  | [], _ => false
  | _ :: _, File _ => true
  | segment :: rest, Folder children =>
      match assoc segment children with
      | Some child => file_on_the_way rest child
      | None => false
      end
  end.

(** [mkdir -p]: [None] when a file is in the way. *)
Fixpoint mkdirp (path : Path) (node : option Node) : option Node :=
  match path with
  | [] =>
      match node with
      | None => Some (Folder [])
      | Some (Folder children) => Some (Folder children)
      | Some (File _) => None
      end
  | segment :: rest =>
      match node with
      | None =>
          option_map (fun child => Folder [(segment, child)]) (mkdirp rest None)
      | Some (Folder children) =>
          option_map (fun child => Folder (upsert segment child children))
                     (mkdirp rest (assoc segment children))
      | Some (File _) => None
      end
  end.

(** [openSync(path, 'w')] followed by [closeSync]: the file is created, or
    truncated when it exists; [None] when the parent is not a folder or the
    path names a folder. *)
Fixpoint truncate (path : Path) (node : Node) : option Node :=
  match path, node with
  | [], _ => None
  | _, File _ => None
  | [leaf], Folder children =>
      match assoc leaf children with
      | Some (Folder _) => None
      | _ => Some (Folder (upsert leaf (File EmptyString) children))
      end
  | segment :: rest, Folder children =>
      match assoc segment children with
      | Some child =>
          option_map (fun child' => Folder (upsert segment child' children))
                     (truncate rest child)
      | None => None
      end
  end.

(** ** Errors and results *)

Inductive Error :=
| NetworkError (message : string)
| DatabaseError (message : string)
| SystemError (code : string).

Inductive Result (A : Type) :=
| Ok (value : A)
| Throw (error : Error).
Arguments Ok {A} value.
Arguments Throw {A} error.

(** ** SQL sent by the runner *)

(** The statements the runner's query texts are made of.  [SCRIPT text] is
    the content of an [up.sql] or [down.sql], appended to the bookkeeping
    statement as it is. *)
Inductive statement :=
| CREATE_TABLE_IF_NOT_EXISTS_Migration
| SELECT_FROM_Migration
| INSERT_INTO_Migration (version : string) (name : string)
| DELETE_FROM_Migration (version : string)
| SCRIPT (text : string).

Inductive sql :=
| BEGIN
| COMMIT
| ROLLBACK
| BATCH (statements : list statement).

Record Row := mkRow { version : Z; name : string }.

(** Rows of a result as the driver returns them: [row.version], [row.name]. *)
Definition QueryResult := list (string * string).

Definition row_object (r : Row) : string * string :=
  (show_bigint (version r), name r).

Definition keys (rows : list Row) : list Z := map version rows.

Inductive WireEvent :=
| Acquire
| Send (query : sql)
| Release.

Inductive LogLine :=
| MIGRATED (version : string) (name : option string)
| REVERTED (version : string) (name : option string).

(** Whether a text is free of dashes. *)
Fixpoint dashless (s : string) : bool :=
  match s with
  | EmptyString => true
  | String c rest => negb (Ascii.eqb c "-") && dashless rest
  end.

(** ** What the runner is given

    The PostgreSQL server, as far as the runner's queries go, and the two
    lodash functions [create] calls. *)

Class Postgres := {
  Schema : Type;
  (** the server running the text of a script on the application schema: the
      schema it leaves in the working copy, and the error if it stopped *)
  exec_script : string -> Schema -> Schema * option string;
  (** the server reading [${version}] where a BIGINT is expected *)
  sql_bigint : string -> option Z
}.

Class Lodash := {
  camelCase : string -> string;
  upperFirst : string -> string
}.

(** A script may carry transaction control of its own.  The runner does not
    look into the text; the server's parser does, and [pieces] is how it
    cuts a script at the COMMITs and ROLLBACKs it finds: the stretches of
    plain statements between them, in order.  A script without any is a
    single plain piece, [pieces text = [Plain text]]. *)
Inductive Piece :=
| Plain (text : string)
| Commit
| Rollback.

Class Control := {
  pieces : string -> list Piece
}.

Section Runner.

Context {pg : Postgres} {lodash : Lodash}.

Record Database := mkDatabase {
  Migration : option (list Row);   (* [None]: the relation does not exist *)
  schema : Schema
}.

Inductive Block :=
| Idle
| Open (work : Database)
| Failed.

Record World := mkWorld {
  durable : Database;              (* what is committed *)
  block : Block;                   (* transaction block of the connection *)
  executed : list string;          (* scripts the server started, in order *)
  oracle : list (option string);   (* coming round trips: [Some m] is rejected *)
  leased : nat;                    (* clients checked out of the pool *)
  wire : list WireEvent;           (* what the process did with the pool *)
  console : list LogLine;
  disk : Node;                     (* the folder [__dirname] *)
  clock : Z;                       (* milliseconds since the epoch *)
  exited : bool
}.

Definition M (A : Type) : Type := World -> World * Result A.

Definition ret {A} (a : A) : M A := fun w => (w, Ok a).

Definition throw {A} (e : Error) : M A := fun w => (w, Throw e).

Definition bind {A B} (m : M A) (k : A -> M B) : M B :=
  fun w =>
    match m w with
    | (w', Ok a) => k a w'
    | (w', Throw e) => (w', Throw e)
    end.

Notation "x <- m ;; k" := (bind m (fun x => k))
  (at level 61, m at next level, right associativity).
Notation "m ;;; k" := (bind m (fun _ => k))
  (at level 61, right associativity).

(** [try { body } catch (error) { handler } finally { finalizer }] *)
Definition try_catch_finally {A} (body : M A) (handler : Error -> M A)
    (finalizer : M unit) : M A :=
  fun w =>
    let '(w1, r1) := body w in
    let '(w2, r2) :=
      match r1 with
      | Ok a => (w1, Ok a)
      | Throw error => handler error w1
      end in
    let '(w3, r3) := finalizer w2 in
    match r3 with
    | Ok _ => (w3, r2)
    | Throw e => (w3, Throw e)
    end.

(** *** Field updates *)

Definition set_durable (db : Database) (w : World) : World :=
  mkWorld db (block w) (executed w) (oracle w) (leased w) (wire w)
          (console w) (disk w) (clock w) (exited w).

Definition set_block (b : Block) (w : World) : World :=
  mkWorld (durable w) b (executed w) (oracle w) (leased w) (wire w)
          (console w) (disk w) (clock w) (exited w).

Definition set_executed (l : list string) (w : World) : World :=
  mkWorld (durable w) (block w) l (oracle w) (leased w) (wire w)
          (console w) (disk w) (clock w) (exited w).

Definition set_oracle (o : list (option string)) (w : World) : World :=
  mkWorld (durable w) (block w) (executed w) o (leased w) (wire w)
          (console w) (disk w) (clock w) (exited w).

Definition set_leased (n : nat) (w : World) : World :=
  mkWorld (durable w) (block w) (executed w) (oracle w) n (wire w)
          (console w) (disk w) (clock w) (exited w).

Definition set_wire (l : list WireEvent) (w : World) : World :=
  mkWorld (durable w) (block w) (executed w) (oracle w) (leased w) l
          (console w) (disk w) (clock w) (exited w).

Definition set_console (l : list LogLine) (w : World) : World :=
  mkWorld (durable w) (block w) (executed w) (oracle w) (leased w) (wire w)
          l (disk w) (clock w) (exited w).

Definition set_disk (d : Node) (w : World) : World :=
  mkWorld (durable w) (block w) (executed w) (oracle w) (leased w) (wire w)
          (console w) d (clock w) (exited w).

Definition set_clock (t : Z) (w : World) : World :=
  mkWorld (durable w) (block w) (executed w) (oracle w) (leased w) (wire w)
          (console w) (disk w) t (exited w).

Definition set_exited (b : bool) (w : World) : World :=
  mkWorld (durable w) (block w) (executed w) (oracle w) (leased w) (wire w)
          (console w) (disk w) (clock w) b.

(** ** The server *)

(** VARCHAR(255) *)
Definition fits_varchar (s : string) : bool := Nat.leb (String.length s) 255.

Definition exec_statement (s : statement) (db : Database)
  : Database * list string * Result QueryResult :=
  match s with
  | CREATE_TABLE_IF_NOT_EXISTS_Migration =>
      match Migration db with
      | Some _ => (db, [], Ok [])
      | None => (mkDatabase (Some []) (schema db), [], Ok [])
      end
  | SELECT_FROM_Migration =>
      match Migration db with
      | Some rows => (db, [], Ok (map row_object rows))
      | None => (db, [], Throw (DatabaseError "relation Migration does not exist"))
      end
  | INSERT_INTO_Migration v n =>
      match Migration db with
      | None => (db, [], Throw (DatabaseError "relation Migration does not exist"))
      | Some rows =>
          match sql_bigint v with
          | None => (db, [], Throw (DatabaseError "invalid input for type bigint"))
          | Some k =>
              if negb (fits_varchar n)
              then (db, [], Throw (DatabaseError "value too long for type character varying(255)"))
              else if existsb (Z.eqb k) (keys rows)
              then (db, [], Throw (DatabaseError "duplicate key value violates unique constraint"))
              else (mkDatabase (Some (rows ++ [mkRow k n])) (schema db), [], Ok [])
          end
      end
  | DELETE_FROM_Migration v =>
      match Migration db with
      | None => (db, [], Throw (DatabaseError "relation Migration does not exist"))
      | Some rows =>
          match sql_bigint v with
          | None => (db, [], Throw (DatabaseError "invalid input for type bigint"))
          | Some k =>
              (mkDatabase (Some (filter (fun r => negb (Z.eqb (version r) k)) rows))
                          (schema db), [], Ok [])
          end
      end
  | SCRIPT text =>
      let '(schema', failure) := exec_script text (schema db) in
      (mkDatabase (Migration db) schema', [text],
       match failure with
       | None => Ok []
       | Some message => Throw (DatabaseError message)
       end)
  end.

(** A query text of several statements: they run in order on the working
    copy and the first error stops the batch. *)
Fixpoint exec_batch (b : list statement) (db : Database)
  : Database * list string * Result QueryResult :=
  match b with
  | [] => (db, [], Ok [])
  | s :: rest =>
      match exec_statement s db with
      | (db', ran, Throw e) => (db', ran, Throw e)
      | (db', ran, Ok rows) =>
          match rest with
          | [] => (db', ran, Ok rows)
          | _ :: _ =>
              let '(db'', ran', r) := exec_batch rest db' in
              (db'', ran ++ ran', r)
          end
      end
  end.

Definition aborted_message : string :=
  "current transaction is aborted, commands ignored until end of transaction block".

Definition server (q : sql) : M QueryResult :=
  fun w =>
    match q with
    | BEGIN =>
        match block w with
        | Idle => (set_block (Open (durable w)) w, Ok [])
        | Open _ => (w, Ok [])
        | Failed => (w, Throw (DatabaseError aborted_message))
        end
    | COMMIT =>
        match block w with
        | Idle => (w, Ok [])
        | Open work => (set_block Idle (set_durable work w), Ok [])
        | Failed => (set_block Idle w, Ok [])
        end
    | ROLLBACK => (set_block Idle w, Ok [])
    | BATCH b =>
        match block w with
        | Idle =>
            let '(db, ran, r) := exec_batch b (durable w) in
            let w' := set_executed (executed w ++ ran) w in
            match r with
            | Ok rows => (set_durable db w', Ok rows)
            | Throw e => (w', Throw e)
            end
        | Open work =>
            let '(db, ran, r) := exec_batch b work in
            let w' := set_executed (executed w ++ ran) w in
            match r with
            | Ok rows => (set_block (Open db) w', Ok rows)
            | Throw e => (set_block Failed w', Throw e)
            end
        | Failed => (w, Throw (DatabaseError aborted_message))
        end
    end.

(** ** The driver *)

(** One round trip: the oracle decides whether it reaches the server. *)
Definition round_trip {A} (action : M A) : M A :=
  fun w =>
    match oracle w with
    | [] => action w
    | None :: coming => action (set_oracle coming w)
    | Some message :: coming => (set_oracle coming w, Throw (NetworkError message))
    end.

Definition pool_connect : M unit :=
  round_trip (fun w =>
    (set_leased (S (leased w)) (set_wire (wire w ++ [Acquire]) w), Ok tt)).

Definition client_query (q : sql) : M QueryResult :=
  fun w => round_trip (server q) (set_wire (wire w ++ [Send q]) w).

Definition client_release : M unit :=
  fun w => (set_leased (pred (leased w)) (set_wire (wire w ++ [Release]) w), Ok tt).

(** ** The process *)

Definition console_log (line : LogLine) : M unit :=
  fun w => (set_console (console w ++ [line]) w, Ok tt).

Definition process_exit : M unit :=
  fun w => (set_exited true w, Ok tt).

Definition Date_now : M Z := fun w => (w, Ok (clock w)).

(** [__dirname]: paths are relative to it. *)
Definition dirname : Path := [].

(** *** [fs] *)

(** The calls that only read are functions of the disk, lifted to [M]. *)
Definition reading {A} (f : Node -> Result A) : M A :=
  fun w => (w, f (disk w)).

Definition readdir (source : Path) (d : Node) : Result (list string) :=
  match lookup source d with
  | Some (Folder children) => Ok (map fst children)
  | Some (File _) => Throw (SystemError "ENOTDIR")
  | None => Throw (SystemError "ENOENT")
  end.

Definition lstat_isDirectory (source : Path) (d : Node) : Result bool :=
  match lookup source d with
  | Some (Folder _) => Ok true
  | Some (File _) => Ok false
  | None => Throw (SystemError "ENOENT")
  end.

Definition readFile (path : Path) (d : Node) : Result string :=
  match lookup path d with
  | Some (File content) => Ok content
  | Some (Folder _) => Throw (SystemError "EISDIR")
  | None => Throw (SystemError "ENOENT")
  end.

Definition readdirSync (source : Path) : M (list string) :=
  reading (readdir source).

(** [lstatSync(source).isDirectory()] *)
Definition isDirectory (source : Path) : M bool :=
  reading (lstat_isDirectory source).

(** [readFileSync(path).toString()] *)
Definition readFileSync (path : Path) : M string :=
  reading (readFile path).

(** [mkdirSync(path, { recursive: true })] *)
Definition mkdirSync (path : Path) : M unit :=
  fun w =>
    match mkdirp path (Some (disk w)) with
    | Some node => (set_disk node w, Ok tt)
    | None =>
        (w, Throw (SystemError (if file_on_the_way path (disk w)
                                then "ENOTDIR" else "EEXIST")))
    end.

(** [closeSync(openSync(path, 'w'))] *)
Definition touch (path : Path) : M unit :=
  fun w =>
    match truncate path (disk w) with
    | Some node => (set_disk node w, Ok tt)
    | None =>
        (w, Throw (SystemError
                     match lookup path (disk w) with
                     | Some (Folder _) => "EISDIR"
                     | _ => if file_on_the_way path (disk w)
                            then "ENOTDIR" else "ENOENT"
                     end))
    end.

(** [array.filter(predicate)] with a predicate that can throw. *)
Fixpoint filterM {A} (predicate : A -> M bool) (l : list A) : M (list A) :=
  match l with
  | [] => ret []
  | x :: rest =>
      keep <- predicate x ;;
      kept <- filterM predicate rest ;;
      ret (if keep then x :: kept else kept)
  end.

(** ** The runner, function by function *)

Definition getDirectories (source : Path) : M (list Path) :=
  names <- readdirSync source ;;
  filterM isDirectory (map (fun name => join source name) names).

(** The [try] block of [transaction] and its [catch] block. *)
Definition try_block (query : list statement) : M QueryResult :=
  client_query BEGIN ;;;
  result <- client_query (BATCH query) ;;
  client_query COMMIT ;;;
  ret result.

Definition catch_block (error : Error) : M QueryResult :=
  client_query ROLLBACK ;;;
  throw error.

Definition transaction (query : list statement) : M QueryResult :=
  client <- pool_connect ;;
  try_catch_finally (try_block query) catch_block client_release.

Definition create (title : string) : M unit :=
  let pascalCasedTitle := upperFirst (camelCase title) in
  now <- Date_now ;;
  let path := join (join dirname "migration")
                   (show_bigint now ++ "-" ++ pascalCasedTitle)%string in
  mkdirSync path ;;;
  touch (join path "up.sql") ;;;
  touch (join path "down.sql").

Definition fetchMigrations : M (list string) :=
  result <- transaction [SELECT_FROM_Migration] ;;
  ret (map fst result).

(** [const [version, name] = directory.split('/').pop().split('-')] *)
Definition unit_id (directory : Path) : string * option string :=
  let parts := split "-" (basename directory) in
  (hd EmptyString parts, nth_error parts 1).

Fixpoint migrate_loop (migrations : list string) (directories : list Path) : M unit :=
  match directories with
  | [] => ret tt
  | directory :: rest =>
      let '(version, name) := unit_id directory in
      if includes migrations version then migrate_loop migrations rest
      else
        query <- readFileSync (join directory "up.sql") ;;
        if falsy query then migrate_loop migrations rest
        else
          transaction [INSERT_INTO_Migration version (interpolate name); SCRIPT query] ;;;
          console_log (MIGRATED version name) ;;;
          migrate_loop migrations rest
  end.

Definition migrate : M unit :=
  transaction [CREATE_TABLE_IF_NOT_EXISTS_Migration] ;;;
  directories <- getDirectories (join dirname "migration") ;;
  migrations <- fetchMigrations ;;
  migrate_loop migrations directories ;;;
  process_exit.

Fixpoint rollback_loop (all : bool) (migrations : list string)
    (removedCount : nat) (directories : list Path) : M unit :=
  match directories with
  | [] => ret tt
  | directory :: rest =>
      if negb all && Nat.ltb 0 removedCount then ret tt
      else
        let '(version, name) := unit_id directory in
        if negb (includes migrations version)
        then rollback_loop all migrations removedCount rest
        else
          query <- readFileSync (join directory "down.sql") ;;
          if falsy query then rollback_loop all migrations removedCount rest
          else
            transaction [DELETE_FROM_Migration version; SCRIPT query] ;;;
            console_log (REVERTED version name) ;;;
            rollback_loop all migrations (S removedCount) rest
  end.

Definition rollback (all : bool) : M unit :=
  directories <- getDirectories (join dirname "migration") ;;
  migrations <- fetchMigrations ;;
  rollback_loop all migrations 0 (rev directories) ;;;
  process_exit.

(** ** What the loops are meant to do

    The units a run has to process, computed from the disk and from the list
    of applied versions alone. *)

Record Step := mkStep {
  step_version : string;
  step_name : option string;
  step_query : string
}.

(** The catalog: the unit folders, in the order discovery enumerates them. *)
Definition root : Path := join dirname "migration".

Fixpoint only_directories (d : Node) (paths : list Path) : Result (list Path) :=
  match paths with
  | [] => Ok []
  | path :: rest =>
      match lstat_isDirectory path d with
      | Throw e => Throw e
      | Ok keep =>
          match only_directories d rest with
          | Throw e => Throw e
          | Ok kept => Ok (if keep then path :: kept else kept)
          end
      end
  end.

Definition directories_of (d : Node) (source : Path) : Result (list Path) :=
  match readdir source d with
  | Throw e => Throw e
  | Ok names => only_directories d (map (fun name => join source name) names)
  end.

Definition catalog (d : Node) : list Path :=
  match directories_of d root with
  | Ok directories => directories
  | Throw _ => []
  end.

(** The content of a script file, an unreadable one counting as empty. *)
Definition script_of (d : Node) (directory : Path) (file : string) : string :=
  match readFile (join directory file) d with
  | Ok query => query
  | Throw _ => EmptyString
  end.

Definition applied_rows (db : Database) : list Row :=
  match Migration db with
  | Some rows => rows
  | None => []
  end.

Definition applied_keys (db : Database) : list Z := keys (applied_rows db).

(** What [fetchMigrations] returns on a database. *)
Definition applied_versions (db : Database) : list string :=
  map show_bigint (applied_keys db).

Definition key_of (directory : Path) : option Z :=
  sql_bigint (fst (unit_id directory)).

(** Pending, with a non-empty up-script. *)
Definition to_apply (d : Node) (migrations : list string) (directory : Path) : bool :=
  negb (includes migrations (fst (unit_id directory)))
  && negb (falsy (script_of d directory "up.sql")).

Definition up_step (d : Node) (directory : Path) : Step :=
  mkStep (fst (unit_id directory)) (snd (unit_id directory))
         (script_of d directory "up.sql").

Definition migrate_plan (d : Node) (migrations : list string)
    (directories : list Path) : list Step :=
  map (up_step d) (filter (to_apply d migrations) directories).

(** Applied, with a non-empty down-script. *)
Definition to_revert (d : Node) (migrations : list string) (directory : Path) : bool :=
  includes migrations (fst (unit_id directory))
  && negb (falsy (script_of d directory "down.sql")).

Definition down_step (d : Node) (directory : Path) : Step :=
  mkStep (fst (unit_id directory)) (snd (unit_id directory))
         (script_of d directory "down.sql").

Definition rollback_plan (d : Node) (migrations : list string)
    (directories : list Path) : list Step :=
  map (down_step d) (filter (to_revert d migrations) directories).

(** The part of a plan a rollback loop may still process, given the [all]
    option and the number of units it has reverted so far. *)
Definition limit (all : bool) (removedCount : nat) (plan : list Step) : list Step :=
  if all then plan
  else match removedCount with
       | 0 => firstn 1 plan
       | S _ => []
       end.

(** The schema after running scripts one after the other. *)
Definition apply_scripts (queries : list string) (s : Schema) : Schema :=
  fold_left (fun s query => fst (exec_script query s)) queries s.

Definition migrated_line (s : Step) : LogLine :=
  MIGRATED (step_version s) (step_name s).

Definition reverted_line (s : Step) : LogLine :=
  REVERTED (step_version s) (step_name s).

(** The row a step's INSERT adds. *)
Definition inserts (s : Step) (r : Row) : Prop :=
  sql_bigint (step_version s) = Some (version r) /\
  name r = interpolate (step_name s).

(** Whether one of the steps' DELETE removes the row. *)
Definition deleted_by (done : list Step) (r : Row) : bool :=
  existsb (fun s =>
             match sql_bigint (step_version s) with
             | Some k => Z.eqb (version r) k
             | None => false
             end) done.





(** Time passing between two calls. *)
Definition elapse (dt : Z) (w : World) : World :=
  set_clock (clock w + dt)%Z w.

(** The folder [create] makes, for a title and a clock reading. *)
Definition unit_folder (title : string) (now : Z) : Path :=
  join root (show_bigint now ++ "-" ++ upperFirst (camelCase title))%string.

Definition is_folder (node : Node) : bool :=
  match node with
  | Folder _ => true
  | File _ => false
  end.

(** What goes over the wire for a transaction that commits: one client, the
    three queries, the client given back. *)
Definition committed_exchange (query : list statement) : list WireEvent :=
  [Acquire; Send BEGIN; Send (BATCH query); Send COMMIT; Release].

(** The batch [migrate] sends for a step, and the one [rollback] sends. *)
Definition insert_batch (s : Step) : list statement :=
  [INSERT_INTO_Migration (step_version s) (interpolate (step_name s));
   SCRIPT (step_query s)].

Definition delete_batch (s : Step) : list statement :=
  [DELETE_FROM_Migration (step_version s); SCRIPT (step_query s)].

(** The entries of a folder, none when the path leads nowhere or to a file. *)
Definition entries (path : Path) (d : Node) : list (string * Node) :=
  match lookup path d with
  | Some (Folder children) => children
  | _ => []
  end.

(** Batches run one after the other on the committed database, each one
    committed before the next starts; the first error ends the sequence. *)
Fixpoint run_batches (batches : list (list statement)) (db : Database)
  : Result Database :=
  match batches with
  | [] => Ok db
  | batch :: rest =>
      match exec_batch batch db with
      | (db', _, Ok _) => run_batches rest db'
      | (_, _, Throw e) => Throw e
      end
  end.

(** How a run ends that has sent these batches. *)
Definition outcome (batches : list (list statement)) (db : Database) : Result unit :=
  match run_batches batches db with
  | Ok _ => Ok tt
  | Throw e => Throw e
  end.

End Runner.

Notation "x <- m ;; k" := (bind m (fun x => k))
  (at level 61, m at next level, right associativity).
Notation "m ;;; k" := (bind m (fun _ => k))
  (at level 61, right associativity).

(** * The runner when scripts carry transaction control

    The server above takes a script as one statement that acts on the schema
    of the working copy.  That is what a script does as long as it leaves
    the transaction alone.  [migrate] and [rollback] put the script text
    after the bookkeeping statement in one query message, as it is, so a
    COMMIT or ROLLBACK in the text is obeyed like any other statement: a
    COMMIT ends the block the runner's BEGIN has opened and makes permanent
    what the message has done so far; the statements after it run in a
    transaction of their own, which the server commits at the end of the
    message and gives up when one of them fails.

    [Verbatim] is the runner on a server that reads scripts this way.  Only
    the execution of a query text differs; [transaction] and the two loops
    are the code again, word for word.  On query texts whose scripts are
    plain the two servers agree ([Verbatim_server_plain] below). *)

Module Verbatim.

Section Runner.

Context {pg : Postgres} {tc : Control}.

(** What the server works through in a query text. *)
Inductive Item :=
| Statement (s : statement)
| COMMIT_in_script
| ROLLBACK_in_script.

Definition item_of (p : Piece) : Item :=
  match p with
  | Plain text => Statement (SCRIPT text)
  | Commit => COMMIT_in_script
  | Rollback => ROLLBACK_in_script
  end.

Definition items_of (s : statement) : list Item :=
  match s with
  | SCRIPT text => map item_of (pieces text)
  | _ => [Statement s]
  end.

(** Where the connection stands inside a message: outside any transaction,
    in the block a BEGIN has opened, or in the transaction the server opens
    by itself for statements sent outside a block. *)
Inductive Progress :=
| Outside
| Explicit (work : Database)
| Implicit (work : Database).

Definition working (committed : Database) (p : Progress) : Database :=
  match p with
  | Outside => committed
  | Explicit work => work
  | Implicit work => work
  end.

Definition continued (p : Progress) (work : Database) : Progress :=
  match p with
  | Explicit _ => Explicit work
  | _ => Implicit work
  end.

(** The end of a message that went through, and of one that failed. *)
Definition closed (committed : Database) (p : Progress) : Database * Block :=
  match p with
  | Outside => (committed, Idle)
  | Explicit work => (committed, Open work)
  | Implicit work => (work, Idle)
  end.

Definition failed (p : Progress) : Block :=
  match p with
  | Explicit _ => Failed
  | _ => Idle
  end.

(** The committed database and the transaction block a query text leaves,
    the scripts the server started, and the result: the rows of the last
    statement, or the first error. *)
Fixpoint exec_items (items : list Item) (committed : Database) (p : Progress)
    (rows : QueryResult)
  : Database * Block * list string * Result QueryResult :=
  match items with
  | [] => (closed committed p, [], Ok rows)
  | COMMIT_in_script :: rest =>
      exec_items rest (working committed p) Outside []
  | ROLLBACK_in_script :: rest =>
      exec_items rest committed Outside []
  | Statement s :: rest =>
      match exec_statement s (working committed p) with
      | (_, ran, Throw e) => (committed, failed p, ran, Throw e)
      | (work, ran, Ok rows') =>
          let '(end_of_message, ran', r) :=
            exec_items rest committed (continued p work) rows' in
          (end_of_message, ran ++ ran', r)
      end
  end.

Definition batch (b : list statement) : M QueryResult :=
  fun w =>
    match block w with
    | Failed => (w, Throw (DatabaseError aborted_message))
    | at_rest_or_open =>
        let p := match at_rest_or_open with
                 | Open work => Explicit work
                 | _ => Outside
                 end in
        let '(committed, blk, ran, r) :=
          exec_items (flat_map items_of b) (durable w) p [] in
        (set_block blk
           (set_durable committed (set_executed (executed w ++ ran) w)), r)
    end.

(** BEGIN, COMMIT and ROLLBACK sent by the runner are what they were. *)
Definition server (q : sql) : M QueryResult :=
  match q with
  | BATCH b => batch b
  | control => server control
  end.

Definition client_query (q : sql) : M QueryResult :=
  fun w => round_trip (server q) (set_wire (wire w ++ [Send q]) w).

Definition try_block (query : list statement) : M QueryResult :=
  client_query BEGIN ;;;
  result <- client_query (BATCH query) ;;
  client_query COMMIT ;;;
  ret result.

Definition catch_block (error : Error) : M QueryResult :=
  client_query ROLLBACK ;;;
  throw error.

Definition transaction (query : list statement) : M QueryResult :=
  client <- pool_connect ;;
  try_catch_finally (try_block query) catch_block client_release.

Fixpoint migrate_loop (migrations : list string) (directories : list Path) : M unit :=
  match directories with
  | [] => ret tt
  | directory :: rest =>
      let '(version, name) := unit_id directory in
      if includes migrations version then migrate_loop migrations rest
      else
        query <- readFileSync (join directory "up.sql") ;;
        if falsy query then migrate_loop migrations rest
        else
          transaction [INSERT_INTO_Migration version (interpolate name); SCRIPT query] ;;;
          console_log (MIGRATED version name) ;;;
          migrate_loop migrations rest
  end.

Fixpoint rollback_loop (all : bool) (migrations : list string)
    (removedCount : nat) (directories : list Path) : M unit :=
  match directories with
  | [] => ret tt
  | directory :: rest =>
      if negb all && Nat.ltb 0 removedCount then ret tt
      else
        let '(version, name) := unit_id directory in
        if negb (includes migrations version)
        then rollback_loop all migrations removedCount rest
        else
          query <- readFileSync (join directory "down.sql") ;;
          if falsy query then rollback_loop all migrations removedCount rest
          else
            transaction [DELETE_FROM_Migration version; SCRIPT query] ;;;
            console_log (REVERTED version name) ;;;
            rollback_loop all migrations (S removedCount) rest
  end.

(** A query text none of whose scripts carries transaction control. *)
Definition plain (b : list statement) : Prop :=
  forall text, In (SCRIPT text) b -> pieces text = [Plain text].

End Runner.

End Verbatim.

(** * A concrete server, catalog and clock

    An instance of the parameters, on which the theorems below are run: a
    schema that is the list of its table names, a script dialect of
    [CREATE name] and [DROP name] statements separated by semicolons (a
    statement that cannot run stops the script and leaves the effects of the
    statements before it in the working copy), decimal BIGINT literals, and
    titles of ASCII words. *)

Definition tables := list string.

Definition run_statement (text : string) (schema : tables) : option tables :=
  match split " " text with
  | [EmptyString] => Some schema
  | ["CREATE"; table] =>
      if includes schema table then None else Some (schema ++ [table])
  | ["DROP"; table] =>
      if includes schema table
      then Some (filter (fun t => negb (String.eqb t table)) schema)
      else None
  | _ => None
  end.

Fixpoint run_statements (texts : list string) (schema : tables)
  : tables * option string :=
  match texts with
  | [] => (schema, None)
  | text :: rest =>
      match run_statement text schema with
      | Some schema' => run_statements rest schema'
      | None => (schema, Some (String.append "cannot run: " text))
      end
  end.

Definition run_script (text : string) (schema : tables) : tables * option string :=
  run_statements (split ";" text) schema.

Definition read_bigint (text : string) : option Z :=
  option_map Z.of_int (NilZero.int_of_string text).

Definition ascii_upper (c : ascii) : ascii :=
  let n := nat_of_ascii c in
  if Nat.leb 97 n && Nat.leb n 122 then ascii_of_nat (n - 32) else c.

Definition ascii_lower (c : ascii) : ascii :=
  let n := nat_of_ascii c in
  if Nat.leb 65 n && Nat.leb n 90 then ascii_of_nat (n + 32) else c.

Fixpoint camel_words (capital : bool) (s : string) : string :=
  match s with
  | EmptyString => EmptyString
  | String c rest =>
      if Ascii.eqb c " " then camel_words true rest
      else String (if capital then ascii_upper c else ascii_lower c)
                  (camel_words false rest)
  end.

Definition words_camelCase (s : string) : string := camel_words false s.

Definition words_upperFirst (s : string) : string :=
  match s with
  | EmptyString => EmptyString
  | String c rest => String (ascii_upper c) rest
  end.

(** The concrete server and the concrete lodash. *)
Definition fixture : Postgres :=
  {| Schema := tables; exec_script := run_script; sql_bigint := read_bigint |}.

Definition words : Lodash :=
  {| camelCase := words_camelCase; upperFirst := words_upperFirst |}.

Definition unit_node (up down : string) : Node :=
  Folder [("up.sql", File up); ("down.sql", File down)].

(** A world at rest: nothing leased, nothing sent or logged yet. *)
Definition world (table : option (list Row)) (schema : tables)
    (oracle : list (option string)) (units : list (string * Node))
  : @World fixture :=
  mkWorld (@mkDatabase fixture table schema) Idle [] oracle 0 [] []
          (Folder [("migration", Folder units)]) 1700000000000 false.

Definition run_migrate : @M fixture unit := migrate.

Definition run_rollback (all : bool) : @M fixture unit :=
  rollback all.

Definition run_transaction (query : list statement) : @M fixture QueryResult :=
  transaction query.

Definition run_create (title : string) : @M fixture unit :=
  create (lodash := words) title.

(** Three units, enumerated in ascending key order. *)
Definition three_units : list (string * Node) :=
  [("1-CreateUsers", unit_node "CREATE users" "DROP users");
   ("2-CreateOrders", unit_node "CREATE orders" "DROP orders");
   ("3-CreateItems", unit_node "CREATE items" "DROP items")].

(** A unit whose up-script fails at its second statement, on a database
    that has the table. *)
Definition failing_unit : @World fixture :=
  world (Some []) [] []
        [("5-AddUsers", unit_node "CREATE users;CREATE users" "DROP users")].

Definition failing_unit_after : @World fixture :=
  fst (run_transaction
         [INSERT_INTO_Migration "5" "AddUsers"; SCRIPT "CREATE users;CREATE users"]
         failing_unit).

(** A database [migrate] never ran on, and what two runs make of it. *)
Definition fresh : @World fixture := world None [] [] three_units.

Definition migrated : @World fixture := fst (run_migrate fresh).


(** A unit scaffolded and never filled in, between two that have scripts. *)
Definition with_empty_up : @World fixture :=
  world None [] []
        [("1-CreateUsers", unit_node "CREATE users" "DROP users");
         ("2-Later", unit_node "" "");
         ("3-CreateItems", unit_node "CREATE items" "DROP items")].

(** Discovery enumerating by name, which is not by key: ["10-B"] sorts
    before ["9-A"].  [migrate] applies key 10 before key 9.  The same with
    two folders enumerated in descending order. *)
Definition by_name : list (string * Node) :=
  [("10-B", unit_node "CREATE b" "DROP b");
   ("9-A", unit_node "CREATE a" "DROP a")].


(** The three units applied, and one or two default rollbacks later. *)
Definition three_applied : @World fixture :=
  world (Some [mkRow 1 "CreateUsers"; mkRow 2 "CreateOrders"; mkRow 3 "CreateItems"])
        ["users"; "orders"; "items"] [] three_units.

Definition rolled_back_once : @World fixture := fst (run_rollback false three_applied).

Definition rolled_back_twice : @World fixture := fst (run_rollback false rolled_back_once).

(** The three units applied, after [rollback --all]. *)
Definition rolled_back_all : @World fixture := fst (run_rollback true three_applied).

(** Both units applied, enumerated by name; and both applied, the later one
    with an empty [down.sql]. *)
Definition by_name_applied : @World fixture :=
  world (Some [mkRow 9 "A"; mkRow 10 "B"]) ["a"; "b"] [] by_name.


(** A connection that is lost while the server runs the batch: the batch and
    every later round trip are rejected. *)
Definition lost_connection : @World fixture :=
  world (Some []) []
        [None; None;
         Some "Connection terminated unexpectedly";
         Some "Client has encountered a connection error and is not queryable"]
        three_units.


(** An empty catalog, and one call of [create] later. *)
Definition empty_catalog : @World fixture := world None [] [] [].

Definition created_once : @World fixture := fst (run_create "add users" empty_catalog).

(** A regular file lying among the unit folders; no [migration] folder at
    all; a folder that is no unit. *)
Definition with_readme : @World fixture :=
  world (Some []) [] []
        [("1-CreateUsers", unit_node "CREATE users" "DROP users");
         ("2-README.md", File "how to write a migration");
         ("3-CreateItems", unit_node "CREATE items" "DROP items")].

Definition no_catalog : @World fixture := set_disk (Folder []) fresh.

Definition stray_folder : @World fixture :=
  world (Some []) [] [] [("notes", Folder [("up.sql", File "CREATE notes")])].

Definition with_shared : @World fixture :=
  world (Some []) [] []
        [("1-CreateUsers", unit_node "CREATE users" "DROP users");
         ("shared", Folder [])].

(** An applied unit that has lost its [down.sql]. *)
Definition down_missing : @World fixture :=
  world (Some [mkRow 1 "CreateUsers"]) ["users"] []
        [("1-CreateUsers", Folder [("up.sql", File "CREATE users")])].




(** Two units made within one millisecond, both filled in. *)
Definition same_key : @World fixture :=
  world None [] []
        [("7-AddOrders", unit_node "CREATE orders" "DROP orders");
         ("7-AddUsers", unit_node "CREATE users" "DROP users")].

(** A row whose unit is gone from the catalog. *)
Definition orphan_row : @World fixture :=
  world (Some [mkRow 1 "CreateUsers"; mkRow 99 "Gone"]) ["users"] []
        [("1-CreateUsers", unit_node "CREATE users" "DROP users")].

(** The folder [create] is about to make, already there and filled in. *)
Definition filled_in : @World fixture :=
  world None [] []
        [("1700000000000-AddUsers", unit_node "CREATE users" "DROP users")].

(** A key written with leading zeros, applied. *)
Definition padded : @World fixture :=
  world (Some [mkRow 7 "x"]) ["x"] [] [("007-x", unit_node "CREATE x" "DROP x")].

(** An applied unit whose down-script fails at its second statement. *)
Definition failing_down : @World fixture :=
  world (Some [mkRow 1 "CreateUsers"]) ["users"] []
        [("1-CreateUsers", unit_node "CREATE users" "DROP users;DROP users")].

Definition failing_down_after : @World fixture :=
  fst (run_transaction
         [DELETE_FROM_Migration "1"; SCRIPT "DROP users;DROP users"] failing_down).

(** The concrete server's reading of transaction control: statements are
    separated by semicolons, and a statement that is the word COMMIT or
    ROLLBACK is one.  The plain statements between two of them stay
    together, semicolons and all. *)
Definition flush (plain : option string) : list Piece :=
  match plain with
  | Some text => [Plain text]
  | None => []
  end.

Fixpoint cut (statements : list string) (plain : option string) : list Piece :=
  match statements with
  | [] => flush plain
  | statement :: rest =>
      if String.eqb statement "COMMIT" then flush plain ++ Commit :: cut rest None
      else if String.eqb statement "ROLLBACK" then flush plain ++ Rollback :: cut rest None
      else cut rest (Some match plain with
                          | Some text => (text ++ ";" ++ statement)%string
                          | None => statement
                          end)
  end.

Definition keywords : Control :=
  {| pieces := fun text => cut (split ";" text) None |}.

(** A unit whose up-script commits by itself before the statement that
    fails, and an applied one whose down-script does. *)
Definition commits_midway : @World fixture :=
  world (Some []) [] []
        [("5-AddUsers", unit_node "CREATE users;COMMIT;CREATE users" "DROP users")].

Definition commits_midway_after : @World fixture :=
  fst (Verbatim.migrate_loop (tc := keywords) []
         [["migration"; "5-AddUsers"]] commits_midway).

Definition commits_midway_down : @World fixture :=
  world (Some [mkRow 1 "CreateUsers"]) ["users"] []
        [("1-CreateUsers", unit_node "CREATE users" "DROP users;COMMIT;DROP users")].

Definition commits_midway_down_after : @World fixture :=
  fst (Verbatim.rollback_loop (tc := keywords) true ["1"] 0
         [["migration"; "1-CreateUsers"]] commits_midway_down).

(** * Properties *)

Section Properties.

Context {pg : Postgres} {lodash : Lodash} {tc : Control}.

(** ** The executor: [transaction] *)

Ltac break_match :=
  match goal with
  | |- context [match ?x with _ => _ end] => is_var x; destruct x
  | |- context [match exec_batch ?b ?d with _ => _ end] =>
      destruct (exec_batch b d) as [[? ?] ?] eqn:?
  end.

Ltac run_transaction :=
  unfold transaction, try_block, catch_block, bind, try_catch_finally,
    pool_connect, client_query, round_trip, client_release, server, ret, throw;
  simpl;
  repeat (break_match; simpl).

(** Everything a call of [transaction] can do to the world. *)
Lemma transaction_spec (q : list statement) (w : World) :
  let '(w', r) := transaction q w in
  disk w' = disk w /\ clock w' = clock w /\ console w' = console w /\
  exited w' = exited w /\ leased w' = leased w /\
  match r with
  | Ok rows =>
      block w' = Idle /\
      (block w = Idle ->
       exists ran, exec_batch q (durable w) = (durable w', ran, Ok rows) /\
                   executed w' = executed w ++ ran)
  | Throw e =>
      durable w' = durable w /\
      (block w = Idle ->
       executed w' = executed w \/
       exists db ran r0, exec_batch q (durable w) = (db, ran, r0) /\
                         executed w' = executed w ++ ran)
  end.
Proof.
  destruct w as [db blk ex orc n wr co dk ck exi].
  run_transaction.
  all: repeat split; try congruence; intros; try discriminate.
  all: try (eexists; split; reflexivity).
  all: try (left; reflexivity).
  all: try (right; do 3 eexists; split; reflexivity).
Qed.

Lemma transaction_frame q w w' r :
  transaction q w = (w', r) ->
  disk w' = disk w /\ clock w' = clock w /\ console w' = console w /\
  exited w' = exited w /\ leased w' = leased w.
Proof.
  intros H. pose proof (transaction_spec q w) as S. rewrite H in S.
  tauto.
Qed.

Lemma transaction_throw q w w' e :
  transaction q w = (w', Throw e) -> durable w' = durable w.
Proof.
  intros H. pose proof (transaction_spec q w) as S. rewrite H in S.
  tauto.
Qed.

Lemma transaction_ok q w w' rows :
  transaction q w = (w', Ok rows) ->
  block w = Idle ->
  block w' = Idle /\
  exists ran, exec_batch q (durable w) = (durable w', ran, Ok rows) /\
              executed w' = executed w ++ ran.
Proof.
  intros H I. pose proof (transaction_spec q w) as S. rewrite H in S.
  destruct S as (_ & _ & _ & _ & _ & S1 & S2). split; auto.
Qed.

Lemma transaction_ok_idle q w w' rows :
  transaction q w = (w', Ok rows) -> block w' = Idle.
Proof.
  intros H. pose proof (transaction_spec q w) as S. rewrite H in S.
  tauto.
Qed.

Lemma transaction_executed q w w' r :
  transaction q w = (w', r) ->
  block w = Idle ->
  executed w' = executed w \/
  exists db ran r0, exec_batch q (durable w) = (db, ran, r0) /\
                    executed w' = executed w ++ ran.
Proof.
  intros H I. pose proof (transaction_spec q w) as S. rewrite H in S.
  destruct S as (_ & _ & _ & _ & _ & S). destruct r.
  - destruct S as [_ S]. destruct (S I) as (ran & E & X).
    right. eauto.
  - destruct S as [_ S]. auto.
Qed.

(** What the process does with the pool and the connection. *)
Lemma transaction_wire (q : list statement) (w : World) :
  let '(w', r) := transaction q w in
  match pool_connect w with
  | (_, Throw e) => r = Throw e /\ wire w' = wire w
  | (_, Ok _) =>
      exists sent,
        wire w' = wire w ++ Acquire :: map Send sent ++ [Release] /\
        forall e, r = Throw e -> exists before, sent = before ++ [ROLLBACK]
  end.
Proof.
  destruct w as [db blk ex orc n wr co dk ck exi].
  run_transaction.
  all: try (split; reflexivity).
  all: repeat rewrite <- app_assoc; simpl.
  all: first
    [ exists [BEGIN; BATCH q; COMMIT]; split;
      [reflexivity | intros; discriminate]
    | exists [BEGIN; ROLLBACK]; split;
      [reflexivity | intros; exists [BEGIN]; reflexivity]
    | exists [BEGIN; BATCH q; ROLLBACK]; split;
      [reflexivity | intros; exists [BEGIN; BATCH q]; reflexivity]
    | exists [BEGIN; BATCH q; COMMIT; ROLLBACK]; split;
      [reflexivity | intros; exists [BEGIN; BATCH q; COMMIT]; reflexivity] ].
Qed.




(** ** The two bookkeeping batches *)

Lemma exec_insert_ok v n q db db' ran rows :
  exec_batch [INSERT_INTO_Migration v n; SCRIPT q] db = (db', ran, Ok rows) ->
  exists rows0 k,
    Migration db = Some rows0 /\ sql_bigint v = Some k /\
    ~ In k (keys rows0) /\
    Migration db' = Some (rows0 ++ [mkRow k n]) /\
    ran = [q] /\
    exec_script q (schema db) = (schema db', None).
Proof.
  simpl. destruct (Migration db) as [rows0|] eqn:T; [|discriminate].
  destruct (sql_bigint v) as [k|] eqn:K; [|discriminate].
  destruct (fits_varchar n); [|discriminate]. cbn [negb].
  destruct (existsb (Z.eqb k) (keys rows0)) eqn:D; [discriminate|].
  simpl. destruct (exec_script q (schema db)) as [s' [m|]] eqn:X; [discriminate|].
  intros H. inversion H; subst. exists rows0, k. simpl.
  repeat split; auto.
  intros I. assert (existsb (Z.eqb k) (keys rows0) = true).
  { apply existsb_exists. exists k. split; auto. apply Z.eqb_refl. }
  congruence.
Qed.

Lemma exec_insert_ran v n q db db' ran r :
  exec_batch [INSERT_INTO_Migration v n; SCRIPT q] db = (db', ran, r) ->
  ran = [] \/
  (ran = [q] /\ exists rows0 k,
      Migration db = Some rows0 /\ sql_bigint v = Some k /\ ~ In k (keys rows0)).
Proof.
  simpl. destruct (Migration db) as [rows0|] eqn:T;
    [|intros H; inversion H; auto].
  destruct (sql_bigint v) as [k|] eqn:K; [|intros H; inversion H; auto].
  destruct (fits_varchar n); [|intros H; inversion H; auto]. cbn [negb].
  destruct (existsb (Z.eqb k) (keys rows0)) eqn:D; [intros H; inversion H; auto|].
  simpl. destruct (exec_script q (schema db)) as [s' [m|]].
  all: intros H; inversion H; subst; right; split; auto.
  all: clear H.
  all: exists rows0, k; repeat split; auto.
  all: intros I; assert (existsb (Z.eqb k) (keys rows0) = true)
    by (apply existsb_exists; exists k; split; auto; apply Z.eqb_refl).
  all: congruence.
Qed.


Lemma exec_delete_ok v q db db' ran rows :
  exec_batch [DELETE_FROM_Migration v; SCRIPT q] db = (db', ran, Ok rows) ->
  exists rows0 k,
    Migration db = Some rows0 /\ sql_bigint v = Some k /\
    Migration db' = Some (filter (fun r => negb (Z.eqb (version r) k)) rows0) /\
    ran = [q] /\
    exec_script q (schema db) = (schema db', None).
Proof.
  simpl. destruct (Migration db) as [rows0|] eqn:T; [|discriminate].
  destruct (sql_bigint v) as [k|] eqn:K; [|discriminate].
  simpl. destruct (exec_script q (schema db)) as [s' [m|]] eqn:X; [discriminate|].
  intros H. inversion H; subst. exists rows0, k. simpl. auto.
Qed.

Lemma exec_delete_ran v q db db' ran r :
  exec_batch [DELETE_FROM_Migration v; SCRIPT q] db = (db', ran, r) ->
  ran = [] \/ ran = [q].
Proof.
  simpl. destruct (Migration db) as [rows0|] eqn:T;
    [|intros H; inversion H; auto].
  destruct (sql_bigint v) as [k|] eqn:K; [|intros H; inversion H; auto].
  simpl. destruct (exec_script q (schema db)) as [s' [m|]].
  all: intros H; inversion H; subst; auto.
Qed.

Lemma exec_create db :
  exec_batch [CREATE_TABLE_IF_NOT_EXISTS_Migration] db =
    (mkDatabase (Some match Migration db with Some rows => rows | None => [] end)
                (schema db), [], Ok []).
Proof.
  simpl. destruct db as [[rows|] s]; reflexivity.
Qed.

Lemma exec_select db db' ran rows :
  exec_batch [SELECT_FROM_Migration] db = (db', ran, Ok rows) ->
  db' = db /\ ran = [] /\ map fst rows = applied_versions db /\ Migration db <> None.
Proof.
  unfold applied_versions, applied_keys, applied_rows. simpl.
  destruct (Migration db) as [rows0|]; [|discriminate].
  intros H. inversion H; subst. repeat split; try discriminate.
  unfold keys. rewrite !map_map. reflexivity.
Qed.

Lemma exec_select_ran db db' ran r :
  exec_batch [SELECT_FROM_Migration] db = (db', ran, r) -> ran = [].
Proof.
  simpl. destruct (Migration db); intros H; inversion H; reflexivity.
Qed.

(** ** Discovery reads and nothing else *)

Lemma filterM_isDirectory paths w :
  filterM isDirectory paths w = (w, only_directories (disk w) paths).
Proof.
  induction paths as [|path rest IH]; simpl; [reflexivity|].
  unfold bind. unfold isDirectory at 1. unfold reading at 1.
  destruct (lstat_isDirectory path (disk w)) as [keep|e]; [|reflexivity].
  rewrite IH. destruct (only_directories (disk w) rest); reflexivity.
Qed.

Lemma getDirectories_reads source w :
  getDirectories source w = (w, directories_of (disk w) source).
Proof.
  unfold getDirectories, directories_of, bind, readdirSync, reading.
  destruct (readdir source (disk w)) as [names|e]; [|reflexivity].
  apply filterM_isDirectory.
Qed.

(** ** The loop of [migrate] *)

Lemma falsy_empty query : falsy query = true -> query = EmptyString.
Proof. destruct query; [reflexivity|discriminate]. Qed.

Lemma migrate_plan_cons d migrations directory rest :
  migrate_plan d migrations (directory :: rest) =
    if to_apply d migrations directory
    then up_step d directory :: migrate_plan d migrations rest
    else migrate_plan d migrations rest.
Proof.
  unfold migrate_plan. simpl. destruct (to_apply d migrations directory); reflexivity.
Qed.

Lemma rollback_plan_cons d migrations directory rest :
  rollback_plan d migrations (directory :: rest) =
    if to_revert d migrations directory
    then down_step d directory :: rollback_plan d migrations rest
    else rollback_plan d migrations rest.
Proof.
  unfold rollback_plan. simpl. destruct (to_revert d migrations directory); reflexivity.
Qed.

(** The loop realises a prefix of the plan, the whole of it when it
    returns: one INSERT, one script and one log line per step, in the order
    of the plan. *)
Lemma migrate_loop_spec migrations directories :
  forall w w' r rows,
    block w = Idle ->
    Migration (durable w) = Some rows ->
    migrate_loop migrations directories w = (w', r) ->
    exists done todo new_rows attempt,
      migrate_plan (disk w) migrations directories = done ++ todo /\
      (r = Ok tt -> todo = [] /\ attempt = [] /\ block w' = Idle) /\
      console w' = console w ++ map migrated_line done /\
      Migration (durable w') = Some (rows ++ new_rows) /\
      schema (durable w') =
        apply_scripts (map step_query done) (schema (durable w)) /\
      Forall2 inserts done new_rows /\
      executed w' = executed w ++ map step_query done ++ attempt /\
      disk w' = disk w /\ exited w' = exited w.
Proof.
  induction directories as [|directory rest IH]; intros w w' r rows I T H.
  - simpl in H. inversion H; subst.
    exists [], [], [], []. simpl. rewrite !app_nil_r.
    repeat split; auto.
  - rewrite migrate_plan_cons. unfold to_apply, up_step, script_of.
    cbn [migrate_loop] in H. destruct (unit_id directory) as [v n] eqn:U.
    cbn [fst snd].
    destruct (includes migrations v) eqn:INC; simpl.
    { eapply IH; eauto. }
    unfold bind at 1, readFileSync, reading in H.
    destruct (readFile (join directory "up.sql") (disk w)) as [query|e] eqn:R.
    2:{ inversion H; subst. simpl.
        exists [], (migrate_plan (disk w') migrations rest), [], [].
        simpl. rewrite !app_nil_r. repeat split; auto; discriminate. }
    destruct (falsy query) eqn:F; simpl.
    { eapply IH; eauto. }
    unfold bind at 1 in H.
    destruct (transaction [INSERT_INTO_Migration v (interpolate n); SCRIPT query] w)
      as [w1 [res|e]] eqn:TX.
    + destruct (transaction_ok _ _ _ _ TX I) as (I1 & ran & X & EX).
      destruct (transaction_frame _ _ _ _ TX) as (D1 & _ & C1 & E1 & _).
      apply exec_insert_ok in X.
      destruct X as (rows0 & k & T0 & K & FRESH & T1 & RAN & SC).
      rewrite T in T0. inversion T0; subst rows0. clear T0.
      unfold bind at 1, console_log in H.
      match type of H with migrate_loop _ _ ?w2 = _ => set (w2' := w2) in * end.
      destruct (IH w2' w' r (rows ++ [mkRow k (interpolate n)]))
        as (done & todo & new_rows & attempt & P & FIN & CO & TB & SCH & INS & EXE
            & DK & EXI);
        auto.
      exists ({| step_version := v; step_name := n; step_query := query |} :: done),
             todo, (mkRow k (interpolate n) :: new_rows), attempt.
      subst w2'. simpl in *. rewrite D1 in *.
      repeat split.
      * rewrite P. reflexivity.
      * apply FIN; auto.
      * apply FIN; auto.
      * apply FIN; auto.
      * rewrite CO, C1, <- app_assoc. reflexivity.
      * rewrite TB, <- app_assoc. reflexivity.
      * rewrite SCH. unfold apply_scripts. simpl. rewrite SC. reflexivity.
      * constructor; auto. split; auto.
      * rewrite EXE, EX, RAN, <- app_assoc. reflexivity.
      * assumption.
      * rewrite EXI, E1. reflexivity.
    + inversion H; subst.
      destruct (transaction_frame _ _ _ _ TX) as (D1 & _ & C1 & E1 & _).
      pose proof (transaction_throw _ _ _ _ TX) as DU.
      destruct (transaction_executed _ _ _ _ TX I) as [EX|(db & ran & r0 & _ & EX)].
      * exists [], ({| step_version := v; step_name := n; step_query := query |}
                     :: migrate_plan (disk w) migrations rest), [], [].
        simpl. rewrite !app_nil_r, DU. repeat split; auto; discriminate.
      * exists [], ({| step_version := v; step_name := n; step_query := query |}
                     :: migrate_plan (disk w) migrations rest), [], ran.
        simpl. rewrite !app_nil_r, DU. repeat split; auto; discriminate.
Qed.

(** ** The loop of [rollback] *)

Lemma filter_all {A} (f : A -> bool) (l : list A) :
  (forall x, f x = true) -> filter f l = l.
Proof.
  intros H. induction l as [|x l IH]; simpl; [reflexivity|].
  rewrite H, IH. reflexivity.
Qed.

Lemma filter_twice {A} (f g : A -> bool) (l : list A) :
  filter f (filter g l) = filter (fun x => g x && f x) l.
Proof.
  induction l as [|x l IH]; cbn [filter]; [reflexivity|].
  destruct (g x); cbn [filter andb]; rewrite IH; reflexivity.
Qed.

Lemma deleted_by_cons s done k :
  sql_bigint (step_version s) = Some k ->
  forall rows,
    filter (fun r => negb (deleted_by done r))
           (filter (fun r => negb (Z.eqb (version r) k)) rows) =
    filter (fun r => negb (deleted_by (s :: done) r)) rows.
Proof.
  intros K rows. rewrite filter_twice. apply filter_ext. intros r.
  unfold deleted_by. cbn [existsb]. rewrite K, negb_orb. reflexivity.
Qed.

Lemma limit_cons all n s plan :
  negb all && Nat.ltb 0 n = false ->
  limit all n (s :: plan) = s :: limit all (S n) plan.
Proof.
  unfold limit. destruct all; [reflexivity|]. destruct n; [|discriminate].
  intros _. simpl. destruct plan; reflexivity.
Qed.

Lemma limit_break all n plan :
  negb all && Nat.ltb 0 n = true -> limit all n plan = [].
Proof.
  unfold limit. destruct all; [discriminate|]. destruct n; [discriminate|].
  reflexivity.
Qed.

(** The loop realises a prefix of what [limit] leaves of the plan, the whole
    of it when it returns: one DELETE, one script and one log line per step. *)
Lemma rollback_loop_spec all migrations directories :
  forall n w w' r rows,
    block w = Idle ->
    Migration (durable w) = Some rows ->
    rollback_loop all migrations n directories w = (w', r) ->
    exists done todo attempt,
      limit all n (rollback_plan (disk w) migrations directories) = done ++ todo /\
      (r = Ok tt -> todo = [] /\ attempt = [] /\ block w' = Idle) /\
      console w' = console w ++ map reverted_line done /\
      Migration (durable w') =
        Some (filter (fun row => negb (deleted_by done row)) rows) /\
      schema (durable w') =
        apply_scripts (map step_query done) (schema (durable w)) /\
      executed w' = executed w ++ map step_query done ++ attempt /\
      disk w' = disk w /\ exited w' = exited w.
Proof.
  induction directories as [|directory rest IH]; intros n w w' r rows I T H.
  - simpl in H. inversion H; subst.
    exists [], [], []. simpl. rewrite !app_nil_r.
    rewrite filter_all by reflexivity.
    repeat split; auto. unfold limit. destruct all; [|destruct n]; reflexivity.
  - cbn [rollback_loop] in H.
    destruct (negb all && Nat.ltb 0 n) eqn:BRK.
    { inversion H; subst. rewrite limit_break by assumption.
      exists [], [], []. simpl. rewrite !app_nil_r.
      rewrite filter_all by reflexivity. repeat split; auto. }
    rewrite rollback_plan_cons. unfold to_revert, down_step, script_of.
    destruct (unit_id directory) as [v n0] eqn:U. cbn [fst snd].
    destruct (includes migrations v) eqn:INC; cbn [negb andb] in *.
    2:{ eapply IH; eauto. }
    unfold bind at 1, readFileSync, reading in H.
    destruct (readFile (join directory "down.sql") (disk w)) as [query|e] eqn:R.
    2:{ inversion H; subst. cbn [falsy negb].
        exists [], (limit all n (rollback_plan (disk w') migrations rest)), [].
        simpl. rewrite !app_nil_r. rewrite filter_all by reflexivity.
        repeat split; auto; discriminate. }
    destruct (falsy query) eqn:F; cbn [negb].
    { eapply IH; eauto. }
    rewrite limit_cons by assumption.
    unfold bind at 1 in H.
    destruct (transaction [DELETE_FROM_Migration v; SCRIPT query] w)
      as [w1 [res|e]] eqn:TX.
    + destruct (transaction_ok _ _ _ _ TX I) as (I1 & ran & X & EX).
      destruct (transaction_frame _ _ _ _ TX) as (D1 & _ & C1 & E1 & _).
      apply exec_delete_ok in X.
      destruct X as (rows0 & k & T0 & K & T1 & RAN & SC).
      rewrite T in T0. inversion T0; subst rows0. clear T0.
      unfold bind at 1, console_log in H.
      match type of H with rollback_loop _ _ _ _ ?w2 = _ => set (w2' := w2) in * end.
      destruct (IH (S n) w2' w' r _ I1 T1 H)
        as (done & todo & attempt & P & FIN & CO & TB & SCH & EXE & DK & EXI).
      exists ({| step_version := v; step_name := n0; step_query := query |} :: done),
             todo, attempt.
      subst w2'. simpl in *. rewrite D1 in *.
      repeat split.
      * rewrite P. reflexivity.
      * apply FIN; auto.
      * apply FIN; auto.
      * apply FIN; auto.
      * rewrite CO, C1, <- app_assoc. reflexivity.
      * rewrite TB. f_equal.
        apply (deleted_by_cons
                 {| step_version := v; step_name := n0; step_query := query |}
                 done k K).
      * rewrite SCH. unfold apply_scripts. simpl. rewrite SC. reflexivity.
      * rewrite EXE, EX, RAN, <- app_assoc. reflexivity.
      * assumption.
      * rewrite EXI, E1. reflexivity.
    + inversion H; subst.
      destruct (transaction_frame _ _ _ _ TX) as (D1 & _ & C1 & E1 & _).
      pose proof (transaction_throw _ _ _ _ TX) as DU.
      destruct (transaction_executed _ _ _ _ TX I) as [EX|(db & ran & r0 & _ & EX)].
      * exists [], ({| step_version := v; step_name := n0; step_query := query |}
                     :: limit all (S n) (rollback_plan (disk w) migrations rest)), [].
        simpl. rewrite !app_nil_r, DU. rewrite filter_all by reflexivity.
        repeat split; auto; discriminate.
      * exists [], ({| step_version := v; step_name := n0; step_query := query |}
                     :: limit all (S n) (rollback_plan (disk w) migrations rest)), ran.
        simpl. rewrite !app_nil_r, DU. rewrite filter_all by reflexivity.
        repeat split; auto; discriminate.
Qed.

(** ** Whole runs *)

Lemma ensure_table w w1 res :
  block w = Idle ->
  transaction [CREATE_TABLE_IF_NOT_EXISTS_Migration] w = (w1, res) ->
  disk w1 = disk w /\ console w1 = console w /\ executed w1 = executed w /\
  exited w1 = exited w /\
  applied_rows (durable w1) = applied_rows (durable w) /\
  schema (durable w1) = schema (durable w) /\
  (Migration (durable w) <> None -> durable w1 = durable w) /\
  (forall x, res = Ok x ->
     block w1 = Idle /\ Migration (durable w1) = Some (applied_rows (durable w))).
Proof.
  intros I TX.
  destruct (transaction_frame _ _ _ _ TX) as (D1 & _ & C1 & E1 & _).
  destruct res as [x|e].
  - destruct (transaction_ok _ _ _ _ TX I) as (I1 & ran & X & EX).
    rewrite exec_create in X. inversion X as [[DB RAN RES]].
    rewrite <- RAN, app_nil_r in EX.
    repeat split; auto.
    destruct (durable w) as [[rows|] s]; simpl; congruence.
  - pose proof (transaction_throw _ _ _ _ TX) as DU.
    assert (executed w1 = executed w) as EX.
    { destruct (transaction_executed _ _ _ _ TX I)
        as [EX|(db & ran & r0 & X & EX)]; auto.
      rewrite exec_create in X. inversion X as [[DB RAN RES]].
      rewrite <- RAN, app_nil_r in EX. assumption. }
    rewrite DU. repeat split; auto; congruence.
Qed.

Lemma fetchMigrations_spec w w1 res :
  block w = Idle ->
  fetchMigrations w = (w1, res) ->
  disk w1 = disk w /\ console w1 = console w /\ executed w1 = executed w /\
  exited w1 = exited w /\ durable w1 = durable w /\
  (forall migrations, res = Ok migrations ->
     block w1 = Idle /\ migrations = applied_versions (durable w) /\
     Migration (durable w) <> None).
Proof.
  intros I H. unfold fetchMigrations, bind in H.
  destruct (transaction [SELECT_FROM_Migration] w) as [w2 [rows|e]] eqn:TX;
    inversion H; subst; clear H.
  - destruct (transaction_frame _ _ _ _ TX) as (D1 & _ & C1 & E1 & _).
    destruct (transaction_ok _ _ _ _ TX I) as (I1 & ran & X & EX).
    apply exec_select in X. destruct X as (DB & RAN & V & N).
    rewrite RAN, app_nil_r in EX.
    repeat split; auto; congruence.
  - destruct (transaction_frame _ _ _ _ TX) as (D1 & _ & C1 & E1 & _).
    pose proof (transaction_throw _ _ _ _ TX) as DU.
    assert (executed w1 = executed w) as EX.
    { destruct (transaction_executed _ _ _ _ TX I)
        as [EX|(db & ran & r0 & X & EX)]; auto.
      apply exec_select_ran in X. rewrite X, app_nil_r in EX. assumption. }
    repeat split; auto; congruence.
Qed.

(** A run of [migrate] realises a prefix of the plan drawn from the catalog
    and the applied versions it starts from, and the whole plan when it
    returns. *)
Lemma migrate_spec w w' r :
  block w = Idle ->
  migrate w = (w', r) ->
  exists done todo new_rows attempt,
    migrate_plan (disk w) (applied_versions (durable w)) (catalog (disk w))
      = done ++ todo /\
    (r = Ok tt ->
       todo = [] /\ attempt = [] /\ block w' = Idle /\
       Migration (durable w') <> None /\
       directories_of (disk w) root = Ok (catalog (disk w))) /\
    console w' = console w ++ map migrated_line done /\
    applied_rows (durable w') = applied_rows (durable w) ++ new_rows /\
    schema (durable w') =
      apply_scripts (map step_query done) (schema (durable w)) /\
    Forall2 inserts done new_rows /\
    executed w' = executed w ++ map step_query done ++ attempt /\
    disk w' = disk w.
Proof.
  intros I H. unfold migrate in H. unfold bind at 1 in H.
  destruct (transaction [CREATE_TABLE_IF_NOT_EXISTS_Migration] w)
    as [w1 res1] eqn:TX1.
  destruct (ensure_table _ _ _ I TX1) as (D1 & C1 & X1 & E1 & R1 & S1 & _ & OK1).
  assert (forall todo,
    exists (done todo0 : list Step) (new_rows : list Row) (attempt : list string),
      todo = done ++ todo0 /\
      (Throw (A:=unit) (NetworkError "") = Ok tt ->
         todo0 = [] /\ attempt = [] /\ block w1 = Idle /\
         Migration (durable w1) <> None /\
         directories_of (disk w) root = Ok (catalog (disk w))) /\
      console w1 = console w ++ map migrated_line done /\
      applied_rows (durable w1) = applied_rows (durable w) ++ new_rows /\
      schema (durable w1) =
        apply_scripts (map step_query done) (schema (durable w)) /\
      Forall2 inserts done new_rows /\
      executed w1 = executed w ++ map step_query done ++ attempt /\
      disk w1 = disk w) as STOP.
  { intros todo. exists [], todo, [], []. simpl. rewrite !app_nil_r.
    repeat split; auto; discriminate. }
  destruct res1 as [x1|e1].
  2:{ inversion H; subst.
      destruct (STOP (migrate_plan (disk w) (applied_versions (durable w))
                                   (catalog (disk w))))
        as (done & todo & nr & att & P & _ & Q).
      exists done, todo, nr, att. split; auto. split; auto. discriminate. }
  destruct (OK1 x1 eq_refl) as (I1 & T1). clear STOP.
  unfold bind at 1 in H. rewrite getDirectories_reads in H.
  change (join dirname "migration") with root in H.
  unfold catalog. rewrite <- D1.
  destruct (directories_of (disk w1) root) as [directories|e2] eqn:DIR.
  2:{ inversion H; subst. exists [], [], [], []. simpl. rewrite !app_nil_r.
      repeat split; auto; discriminate. }
  unfold bind at 1 in H.
  destruct (fetchMigrations w1) as [w2 res2] eqn:FM.
  destruct (fetchMigrations_spec _ _ _ I1 FM) as (D2 & C2 & X2 & E2 & DU2 & OK2).
  assert (applied_versions (durable w1) = applied_versions (durable w)) as AV.
  { unfold applied_versions, applied_keys. rewrite R1. reflexivity. }
  destruct res2 as [migrations|e2].
  2:{ inversion H; subst.
      exists [], (migrate_plan (disk w1) (applied_versions (durable w)) directories),
             [], [].
      simpl. rewrite !app_nil_r. rewrite DU2.
      repeat split; auto; try congruence; discriminate. }
  destruct (OK2 migrations eq_refl) as (I2 & M & _). rewrite AV in M. subst migrations.
  unfold bind at 1 in H.
  destruct (migrate_loop (applied_versions (durable w)) directories w2)
    as [w3 res3] eqn:LOOP.
  assert (Migration (durable w2) = Some (applied_rows (durable w))) as T2
    by (rewrite DU2; assumption).
  destruct (migrate_loop_spec _ _ _ _ _ _ I2 T2 LOOP)
    as (done & todo & new_rows & attempt & P & FIN & CO & TB & SCH & INS & EXE
        & DK & EXI).
  assert (schema (durable w2) = schema (durable w)) as S2
    by (rewrite DU2; assumption).
  rewrite S2 in SCH.
  exists done, todo, new_rows, attempt.
  rewrite D2 in P.
  assert (applied_rows (durable w3) = applied_rows (durable w) ++ new_rows) as AR
    by (unfold applied_rows at 1; rewrite TB; reflexivity).
  destruct res3 as [[]|e3]; inversion H; subst; simpl.
  - destruct (FIN eq_refl) as (F1 & F2 & F3).
    repeat split; auto; try congruence.
  - repeat split; auto; try congruence; discriminate.
Qed.

(** A run of [rollback] realises a prefix of what [limit] leaves of the plan
    drawn from the reversed catalog, and the whole of it when it returns. *)
Lemma rollback_spec all w w' r :
  block w = Idle ->
  rollback all w = (w', r) ->
  exists done todo attempt,
    limit all 0 (rollback_plan (disk w) (applied_versions (durable w))
                               (rev (catalog (disk w))))
      = done ++ todo /\
    (r = Ok tt ->
       todo = [] /\ attempt = [] /\ block w' = Idle /\
       Migration (durable w) <> None /\
       directories_of (disk w) root = Ok (catalog (disk w))) /\
    console w' = console w ++ map reverted_line done /\
    Migration (durable w') =
      option_map (filter (fun row => negb (deleted_by done row)))
                 (Migration (durable w)) /\
    schema (durable w') =
      apply_scripts (map step_query done) (schema (durable w)) /\
    executed w' = executed w ++ map step_query done ++ attempt /\
    disk w' = disk w.
Proof.
  intros I H. unfold rollback in H. unfold bind at 1 in H.
  rewrite getDirectories_reads in H. unfold catalog.
  change (join dirname "migration") with root in H.
  destruct (directories_of (disk w) root) as [directories|e1] eqn:DIR.
  2:{ inversion H; subst. exists [], [], []. simpl. rewrite !app_nil_r.
      destruct (Migration (durable w')); simpl;
        [rewrite filter_all by reflexivity|];
        repeat split; auto; try discriminate.
      all: destruct all; reflexivity. }
  unfold bind at 1 in H.
  destruct (fetchMigrations w) as [w1 res1] eqn:FM.
  destruct (fetchMigrations_spec _ _ _ I FM) as (D1 & C1 & X1 & E1 & DU1 & OK1).
  destruct res1 as [migrations|e1].
  2:{ inversion H; subst.
      exists [], (limit all 0 (rollback_plan (disk w) (applied_versions (durable w))
                                             (rev directories))), [].
      simpl. rewrite !app_nil_r, DU1.
      destruct (Migration (durable w)); simpl;
        [rewrite filter_all by reflexivity|];
        repeat split; auto; discriminate. }
  destruct (OK1 migrations eq_refl) as (I1 & M & TBL). subst migrations.
  destruct (Migration (durable w)) as [rows|] eqn:T; [clear TBL|congruence].
  unfold bind at 1 in H.
  destruct (rollback_loop all (applied_versions (durable w)) 0 (rev directories) w1)
    as [w2 res2] eqn:LOOP.
  assert (Migration (durable w1) = Some rows) as T1 by (rewrite DU1; assumption).
  destruct (rollback_loop_spec _ _ _ _ _ _ _ _ I1 T1 LOOP)
    as (done & todo & attempt & P & FIN & CO & TB & SCH & EXE & DK & EXI).
  rewrite DU1 in SCH.
  exists done, todo, attempt. rewrite D1 in P. simpl.
  destruct res2 as [[]|e2]; inversion H; subst; simpl.
  - destruct (FIN eq_refl) as (F1 & F2 & F3).
    repeat split; auto; try congruence.
  - repeat split; auto; try congruence; discriminate.
Qed.

(** * The claims *)

(** ** Scripts that leave the transaction alone *)

Lemma items_of_plain b :
  Verbatim.plain b -> flat_map Verbatim.items_of b = map Verbatim.Statement b.
Proof.
  induction b as [|s rest IH]; intros P; [reflexivity|].
  cbn [flat_map map].
  rewrite IH by (intros text H; apply P; right; exact H).
  destruct s; try reflexivity.
  cbn [Verbatim.items_of]. rewrite (P text (or_introl eq_refl)). reflexivity.
Qed.

Lemma exec_items_statements b :
  forall committed p rows,
    Verbatim.exec_items (map Verbatim.Statement b) committed p rows =
    match b with
    | [] => (Verbatim.closed committed p, [], Ok rows)
    | _ :: _ =>
        match exec_batch b (Verbatim.working committed p) with
        | (db, ran, Ok rows') =>
            (Verbatim.closed committed (Verbatim.continued p db), ran, Ok rows')
        | (_, ran, Throw e) => (committed, Verbatim.failed p, ran, Throw e)
        end
    end.
Proof.
  induction b as [|s rest IH]; intros committed p rows; [reflexivity|].
  cbn [map Verbatim.exec_items exec_batch].
  destruct (exec_statement s (Verbatim.working committed p))
    as [[work ran] [rows'|e]]; [|reflexivity].
  rewrite IH. destruct rest as [|s' rest'].
  - rewrite app_nil_r. reflexivity.
  - replace (Verbatim.working committed (Verbatim.continued p work)) with work
      by (destruct p; reflexivity).
    destruct (exec_batch (s' :: rest') work) as [[db ran'] [r|e]].
    + destruct p; reflexivity.
    + destruct p; reflexivity.
Qed.

Lemma Verbatim_server_plain q w :
  (forall b, q = BATCH b -> Verbatim.plain b) ->
  Verbatim.server q w = server q w.
Proof.
  intros P. destruct q as [| | |b]; try reflexivity.
  specialize (P b eq_refl).
  unfold Verbatim.server, Verbatim.batch, server.
  rewrite (items_of_plain b P).
  destruct w as [db blk ex orc n wr co dk ck exi]. cbn [block durable executed].
  destruct blk as [|work|]; [| |reflexivity].
  - rewrite exec_items_statements. cbn [Verbatim.working].
    destruct b as [|s rest]; [reflexivity|].
    destruct (exec_batch (s :: rest) db) as [[db' ran] [rows|e]]; reflexivity.
  - rewrite exec_items_statements. cbn [Verbatim.working].
    destruct b as [|s rest]; [simpl|].
    + reflexivity.
    + destruct (exec_batch (s :: rest) work) as [[db' ran] [rows|e]]; reflexivity.
Qed.

Lemma Verbatim_client_query_plain q w :
  (forall b, q = BATCH b -> Verbatim.plain b) ->
  Verbatim.client_query q w = client_query q w.
Proof.
  intros P. unfold Verbatim.client_query, client_query, round_trip.
  destruct (oracle (set_wire (wire w ++ [Send q]) w)) as [|[m|] coming];
    try reflexivity; apply Verbatim_server_plain; exact P.
Qed.

Lemma Verbatim_transaction_plain query w :
  Verbatim.plain query ->
  Verbatim.transaction query w = transaction query w.
Proof.
  intros P.
  assert (forall q w0, q = BEGIN \/ q = COMMIT \/ q = ROLLBACK \/ q = BATCH query ->
            Verbatim.client_query q w0 = client_query q w0) as Q.
  { intros q w0 H. apply Verbatim_client_query_plain. intros b E.
    destruct H as [ -> | [ -> | [ -> | -> ]]]; try discriminate.
    inversion E; subst. exact P. }
  unfold Verbatim.transaction, transaction, bind.
  destruct (pool_connect w) as [w1 [x|e]]; [|reflexivity].
  unfold try_catch_finally.
  assert (Verbatim.try_block query w1 = try_block query w1) as ->.
  { unfold Verbatim.try_block, try_block, bind.
    rewrite Q by auto.
    destruct (client_query BEGIN w1) as [w2 [x2|e2]]; [|reflexivity].
    rewrite Q by auto.
    destruct (client_query (BATCH query) w2) as [w3 [x3|e3]]; [|reflexivity].
    rewrite Q by auto. reflexivity. }
  destruct (try_block query w1) as [w2 [rows|e]]; [reflexivity|].
  unfold Verbatim.catch_block, catch_block, bind. rewrite Q by auto.
  reflexivity.
Qed.


(** ** A batch the server refuses *)

(** On a healthy connection at rest, a refused batch is answered by
    ROLLBACK: the whole exchange. *)
Lemma transaction_refused q w db ran e :
  oracle w = [] -> block w = Idle ->
  exec_batch q (durable w) = (db, ran, Throw e) ->
  exists w',
    transaction q w = (w', Throw e) /\
    block w' = Idle /\
    executed w' = executed w ++ ran /\
    wire w' = wire w ++ [Acquire; Send BEGIN; Send (BATCH q); Send ROLLBACK; Release].
Proof.
  destruct w as [d blk ex orc n wr co dk ck exi]. simpl.
  intros -> -> X.
  unfold transaction, try_block, catch_block, bind, try_catch_finally,
    pool_connect, client_query, round_trip, client_release, server, ret, throw;
    simpl.
  rewrite X. simpl. eexists. split; [reflexivity|]. simpl.
  repeat split. repeat rewrite <- app_assoc. reflexivity.
Qed.

Lemma refused_batch_throws q w w' r db ran e0 :
  block w = Idle ->
  exec_batch q (durable w) = (db, ran, Throw e0) ->
  transaction q w = (w', r) ->
  (exists e, r = Throw e) /\
  durable w' = durable w /\ console w' = console w /\ leased w' = leased w /\
  disk w' = disk w /\
  (forall w1, pool_connect w = (w1, Ok tt) ->
     exists before,
       wire w' = wire w ++ Acquire :: map Send (before ++ [ROLLBACK]) ++ [Release]) /\
  (oracle w = [] ->
     r = Throw e0 /\ block w' = Idle /\ executed w' = executed w ++ ran /\
     wire w' =
       wire w ++ [Acquire; Send BEGIN; Send (BATCH q); Send ROLLBACK; Release]).
Proof.
  intros I X TX.
  destruct (transaction_frame _ _ _ _ TX) as (D & _ & C & _ & L).
  destruct r as [rows|e].
  { destruct (transaction_ok _ _ _ _ TX I) as (_ & ran' & X' & _). congruence. }
  split; [eauto|]. split; [exact (transaction_throw _ _ _ _ TX)|].
  split; [exact C|]. split; [exact L|]. split; [exact D|]. split.
  - intros w1 PC. pose proof (transaction_wire q w) as W.
    rewrite TX, PC in W. destruct W as (sent & W & LAST).
    destruct (LAST e eq_refl) as (before & ->). eauto.
  - intros O. destruct (transaction_refused _ _ _ _ _ O I X) as (w'' & TX' & R).
    rewrite TX in TX'. inversion TX'; subst. auto.
Qed.

Lemma plain_insert v n query :
  pieces query = [Plain query] ->
  Verbatim.plain [INSERT_INTO_Migration v n; SCRIPT query].
Proof.
  intros P text [H|[H|[]]]; [discriminate|]. inversion H; subst. exact P.
Qed.

Lemma plain_delete v query :
  pieces query = [Plain query] ->
  Verbatim.plain [DELETE_FROM_Migration v; SCRIPT query].
Proof.
  intros P text [H|[H|[]]]; [discriminate|]. inversion H; subst. exact P.
Qed.

(** C1 (as amended).  The bookkeeping INSERT and the up-script are one query
    text, sent between BEGIN and COMMIT.  For an up-script that carries no
    transaction control of its own: when the server refuses that text, at
    the INSERT or at whatever statement of the script, the iteration of
    [migrate] ends in an error whatever becomes of the connection, nothing
    is logged, the client is given back, and the committed database is
    exactly what it was: no row of the "Migration" table and no change of
    the schema made before the failing statement survives; if the server did
    start the script, the unit's key is not in the table afterwards.  The
    transaction is rolled back as a whole: once a client is acquired,
    ROLLBACK is the last query sent on it, and on a healthy connection the
    exchange is BEGIN, the query text, ROLLBACK, the error thrown is the
    server's and no transaction block is left open.  The text the server
    refuses is the batch [exec_batch] runs, a plain script being one
    statement of it.  (An up-script that itself COMMITs before the statement
    that fails keeps what it did up to there; see the run on
    [commits_midway] below.) *)
Theorem failed_up_script_leaves_no_trace
    (migrations : list string) (directory : Path) (rest : list Path)
    (version : string) (name : option string) (query : string)
    (w : World) (db : Database) (ran : list string) (e0 : Error) :
  unit_id directory = (version, name) ->
  includes migrations version = false ->
  readFile (join directory "up.sql") (disk w) = Ok query ->
  falsy query = false ->
  pieces query = [Plain query] ->
  block w = Idle ->
  exec_batch [INSERT_INTO_Migration version (interpolate name); SCRIPT query]
             (durable w) = (db, ran, Throw e0) ->
  forall w' r,
    Verbatim.migrate_loop migrations (directory :: rest) w = (w', r) ->
    (exists e, r = Throw e) /\
    durable w' = durable w /\
    console w' = console w /\
    leased w' = leased w /\
    (forall w1, pool_connect w = (w1, Ok tt) ->
       exists before,
         wire w' =
           wire w ++ Acquire :: map Send (before ++ [ROLLBACK]) ++ [Release]) /\
    (oracle w = [] ->
       r = Throw e0 /\ block w' = Idle /\ executed w' = executed w ++ ran /\
       wire w' =
         wire w ++
         [Acquire; Send BEGIN;
          Send (BATCH [INSERT_INTO_Migration version (interpolate name);
                       SCRIPT query]);
          Send ROLLBACK; Release]) /\
    (ran <> [] ->
       exists k, sql_bigint version = Some k /\
                 ~ In k (applied_keys (durable w'))).
Proof.
  intros U INC R F P I X w' r H.
  cbn [Verbatim.migrate_loop] in H. rewrite U, INC in H.
  unfold bind at 1, readFileSync, reading in H. rewrite R, F in H.
  unfold bind at 1 in H.
  rewrite (Verbatim_transaction_plain _ _ (plain_insert _ _ _ P)) in H.
  destruct (transaction [INSERT_INTO_Migration version (interpolate name);
                         SCRIPT query] w) as [w1 r1] eqn:TX.
  destruct (refused_batch_throws _ _ _ _ _ _ _ I X TX)
    as ((e & ->) & DU & C & L & _ & W & O).
  inversion H; subst w' r.
  split; [eauto|]. split; [exact DU|]. split; [exact C|]. split; [exact L|].
  split; [exact W|]. split.
  { intros HO. destruct (O HO) as (E & B & EX & WI). inversion E; subst. auto. }
  intros RAN. apply exec_insert_ran in X.
  destruct X as [->|(_ & rows0 & k & T & K & FRESH)]; [contradiction|].
  exists k. split; [exact K|]. unfold applied_keys, applied_rows.
  rewrite DU, T. exact FRESH.
Qed.




Lemma Forall2_In_left {A B} (P : A -> B -> Prop) l l' x :
  Forall2 P l l' -> In x l -> exists y, In y l' /\ P x y.
Proof.
  induction 1 as [|a b l l' Pab F IH]; simpl; [tauto|].
  intros [->|I]; [eauto|]. destruct (IH I) as (y & Iy & Py). eauto.
Qed.







Lemma Forall2_In_right {A B} (P : A -> B -> Prop) l l' y :
  Forall2 P l l' -> In y l' -> exists x, In x l /\ P x y.
Proof.
  induction 1 as [|a b l l' Pab F IH]; simpl; [tauto|].
  intros [->|I]; [eauto|]. destruct (IH I) as (x & Ix & Px). eauto.
Qed.

Lemma migrate_plan_In d migrations directories s :
  In s (migrate_plan d migrations directories) ->
  exists directory,
    In directory directories /\ to_apply d migrations directory = true /\
    s = up_step d directory.
Proof.
  unfold migrate_plan. intros H. apply in_map_iff in H.
  destruct H as (directory & <- & H). apply filter_In in H.
  exists directory. tauto.
Qed.

Lemma rollback_plan_In d migrations directories s :
  In s (rollback_plan d migrations directories) ->
  exists directory,
    In directory directories /\ to_revert d migrations directory = true /\
    s = down_step d directory.
Proof.
  unfold rollback_plan. intros H. apply in_map_iff in H.
  destruct H as (directory & <- & H). apply filter_In in H.
  exists directory. tauto.
Qed.

(** C6 (empty up-script).  A unit of the catalog whose [up.sql] is empty is
    skipped by the loop of [migrate] without anything being done for it: the
    iteration leaves the world as it found it, so no client is acquired, no
    transaction is opened and no row is written.  Its key being carried by no
    other unit of the catalog, the unit is as unapplied after a run of
    [migrate], however the run ends, as it was before. *)
Theorem empty_up_script_is_never_applied
    (directory : Path) (k : Z) (w w' : World) (r : Result unit) :
  block w = Idle ->
  In directory (catalog (disk w)) ->
  key_of directory = Some k ->
  (forall other, In other (catalog (disk w)) ->
                 key_of other = Some k -> other = directory) ->
  readFile (join directory "up.sql") (disk w) = Ok EmptyString ->
  ~ In k (applied_keys (durable w)) ->
  migrate w = (w', r) ->
  (forall migrations rest w0,
     disk w0 = disk w ->
     migrate_loop migrations (directory :: rest) w0 =
     migrate_loop migrations rest w0) /\
  ~ In k (applied_keys (durable w')) /\
  disk w' = disk w.
Proof.
  intros I IN K UNIQ R PENDING RUN.
  split; [|split].
  - intros migrations rest w0 D. cbn [migrate_loop].
    destruct (unit_id directory) as [v n].
    destruct (includes migrations v); [reflexivity|].
    unfold bind at 1, readFileSync, reading. rewrite D, R. reflexivity.
  - destruct (migrate_spec _ _ _ I RUN)
      as (done & todo & new_rows & attempt & P & _ & _ & TB & _ & INS & _).
    unfold applied_keys in *. rewrite TB. unfold keys. rewrite map_app.
    intros H. apply in_app_or in H. destruct H as [H|H]; [auto|].
    apply in_map_iff in H. destruct H as (row & V & INR).
    destruct (Forall2_In_right _ _ _ _ INS INR) as (s & INS' & KS & _).
    assert (In s (migrate_plan (disk w) (applied_versions (durable w))
                               (catalog (disk w)))) as PL
      by (rewrite P; apply in_or_app; left; assumption).
    destruct (migrate_plan_In _ _ _ _ PL) as (other & INO & APPLY & ->).
    simpl in KS. rewrite V in KS.
    rewrite (UNIQ other INO KS) in APPLY.
    unfold to_apply, script_of in APPLY. rewrite R in APPLY.
    simpl in APPLY. rewrite andb_false_r in APPLY. discriminate.
  - destruct (migrate_spec _ _ _ I RUN)
      as (done & todo & new_rows & attempt & _ & _ & _ & _ & _ & _ & _ & D).
    exact D.
Qed.









(** With every round trip reaching the server and the connection outside a
    transaction block, [transaction] returns what the server made of the
    batch, commits its effects when that is a result and leaves the committed
    database alone when it is an error. *)
Lemma transaction_healthy q w :
  oracle w = [] ->
  block w = Idle ->
  exists w',
    transaction q w = (w', snd (exec_batch q (durable w))) /\
    oracle w' = [] /\ block w' = Idle /\
    durable w' =
      match snd (exec_batch q (durable w)) with
      | Ok _ => fst (fst (exec_batch q (durable w)))
      | Throw _ => durable w
      end.
Proof.
  destruct w as [db blk ex orc n wr co dk ck exi]. simpl.
  intros -> ->.
  unfold transaction, try_block, catch_block, bind, try_catch_finally,
    pool_connect, client_query, round_trip, client_release, server, ret, throw.
  simpl. destruct (exec_batch q db) as [[db' ran] [rows|e]]; simpl;
    eexists; repeat split.
Qed.

(** C10 ([rollback] on a database without the table).  [rollback] goes
    straight to reading the catalog and the "Migration" table.  On a database
    where the table does not exist it always ends in an error, having changed
    nothing and without reaching [process.exit]; with the catalog readable and
    every round trip reaching the server, the error is the server's refusal to
    read the missing relation.  [migrate] on the same world first runs
    CREATE TABLE IF NOT EXISTS, which succeeds and leaves the table in
    place. *)
Theorem rollback_needs_the_table (all : bool) (w w' : World) (r : Result unit) :
  block w = Idle ->
  Migration (durable w) = None ->
  rollback all w = (w', r) ->
  (exists e, r = Throw e) /\
  durable w' = durable w /\ console w' = console w /\
  executed w' = executed w /\ exited w' = exited w /\
  (oracle w = [] ->
   (exists directories, directories_of (disk w) root = Ok directories) ->
   r = Throw (DatabaseError "relation Migration does not exist")) /\
  (oracle w = [] ->
   exists w1 x,
     transaction [CREATE_TABLE_IF_NOT_EXISTS_Migration] w = (w1, Ok x) /\
     Migration (durable w1) = Some []).
Proof.
  intros I T RUN. unfold rollback in RUN. unfold bind at 1 in RUN.
  rewrite getDirectories_reads in RUN.
  change (join dirname "migration") with root in RUN.
  assert (oracle w = [] ->
          exists w1 x,
            transaction [CREATE_TABLE_IF_NOT_EXISTS_Migration] w = (w1, Ok x) /\
            Migration (durable w1) = Some []) as CREATE.
  { intros H. destruct (transaction_healthy [CREATE_TABLE_IF_NOT_EXISTS_Migration] w H I)
      as (w1 & TX & _ & _ & DU).
    rewrite exec_create in TX, DU. simpl in TX, DU.
    exists w1, []. split; [exact TX|]. rewrite DU, T. reflexivity. }
  destruct (directories_of (disk w) root) as [directories|e1] eqn:DIR.
  2:{ inversion RUN; subst. repeat split; eauto.
      intros _ (directories & D). discriminate. }
  unfold bind at 1 in RUN.
  destruct (fetchMigrations w) as [w1 res1] eqn:FM.
  destruct (fetchMigrations_spec _ _ _ I FM) as (D1 & C1 & X1 & E1 & DU1 & OK1).
  destruct res1 as [migrations|e1].
  { destruct (OK1 migrations eq_refl) as (_ & _ & N). contradiction. }
  inversion RUN; subst. repeat split; eauto.
  intros H _. unfold fetchMigrations, bind in FM.
  destruct (transaction_healthy [SELECT_FROM_Migration] w H I) as (w1 & TX & _).
  rewrite TX in FM. simpl in FM. rewrite T in FM. simpl in FM.
  inversion FM. reflexivity.
Qed.


(** ** Order *)










(** * Further properties of the runner *)

(** ** What a run leaves alone *)

Lemma fetchMigrations_frame w w' r :
  fetchMigrations w = (w', r) ->
  disk w' = disk w /\ clock w' = clock w /\ leased w' = leased w /\
  exited w' = exited w.
Proof.
  unfold fetchMigrations, bind. intros H.
  destruct (transaction [SELECT_FROM_Migration] w) as [w1 [rows|e]] eqn:TX;
    inversion H; subst;
    destruct (transaction_frame _ _ _ _ TX) as (D & C & _ & E & L); auto.
Qed.

Lemma migrate_loop_frame migrations directories :
  forall w w' r,
    migrate_loop migrations directories w = (w', r) ->
    disk w' = disk w /\ clock w' = clock w /\ leased w' = leased w /\
    exited w' = exited w.
Proof.
  induction directories as [|directory rest IH]; intros w w' r H.
  - simpl in H. inversion H; subst. auto.
  - cbn [migrate_loop] in H. destruct (unit_id directory) as [v n].
    destruct (includes migrations v); [eauto|].
    unfold bind at 1, readFileSync, reading in H.
    destruct (readFile (join directory "up.sql") (disk w)) as [query|e];
      [|inversion H; subst; auto].
    destruct (falsy query); [eauto|].
    unfold bind at 1 in H.
    destruct (transaction [INSERT_INTO_Migration v (interpolate n); SCRIPT query] w)
      as [w1 [res|e]] eqn:TX;
      destruct (transaction_frame _ _ _ _ TX) as (D & C & _ & E & L).
    + unfold bind at 1, console_log in H.
      apply IH in H. simpl in H. destruct H as (D' & C' & L' & E').
      repeat split; congruence.
    + inversion H; subst. auto.
Qed.

Lemma rollback_loop_frame all migrations directories :
  forall n w w' r,
    rollback_loop all migrations n directories w = (w', r) ->
    disk w' = disk w /\ clock w' = clock w /\ leased w' = leased w /\
    exited w' = exited w.
Proof.
  induction directories as [|directory rest IH]; intros n w w' r H.
  - simpl in H. inversion H; subst. auto.
  - cbn [rollback_loop] in H.
    destruct (negb all && Nat.ltb 0 n); [inversion H; subst; auto|].
    destruct (unit_id directory) as [v n0].
    destruct (negb (includes migrations v)); [eauto|].
    unfold bind at 1, readFileSync, reading in H.
    destruct (readFile (join directory "down.sql") (disk w)) as [query|e];
      [|inversion H; subst; auto].
    destruct (falsy query); [eauto|].
    unfold bind at 1 in H.
    destruct (transaction [DELETE_FROM_Migration v; SCRIPT query] w)
      as [w1 [res|e]] eqn:TX;
      destruct (transaction_frame _ _ _ _ TX) as (D & C & _ & E & L).
    + unfold bind at 1, console_log in H.
      apply IH in H. simpl in H. destruct H as (D' & C' & L' & E').
      repeat split; congruence.
    + inversion H; subst. auto.
Qed.

Lemma migrate_frame w w' r :
  migrate w = (w', r) ->
  disk w' = disk w /\ clock w' = clock w /\ leased w' = leased w /\
  exited w' = match r with Ok _ => true | Throw _ => exited w end.
Proof.
  unfold migrate. unfold bind at 1. intros H.
  destruct (transaction [CREATE_TABLE_IF_NOT_EXISTS_Migration] w)
    as [w1 [x|e]] eqn:TX;
    destruct (transaction_frame _ _ _ _ TX) as (D1 & C1 & _ & E1 & L1);
    [|inversion H; subst; auto].
  unfold bind at 1 in H. rewrite getDirectories_reads in H.
  destruct (directories_of (disk w1) (join dirname "migration"))
    as [directories|e]; [|inversion H; subst; auto].
  unfold bind at 1 in H.
  destruct (fetchMigrations w1) as [w2 [migrations|e]] eqn:FM;
    destruct (fetchMigrations_frame _ _ _ FM) as (D2 & C2 & L2 & E2);
    [|inversion H; subst; repeat split; congruence].
  unfold bind at 1 in H.
  destruct (migrate_loop migrations directories w2) as [w3 [[]|e]] eqn:LOOP;
    destruct (migrate_loop_frame _ _ _ _ _ LOOP) as (D3 & C3 & L3 & E3);
    inversion H; subst; simpl; repeat split; congruence.
Qed.

Lemma rollback_frame all w w' r :
  rollback all w = (w', r) ->
  disk w' = disk w /\ clock w' = clock w /\ leased w' = leased w /\
  exited w' = match r with Ok _ => true | Throw _ => exited w end.
Proof.
  unfold rollback. unfold bind at 1. intros H.
  rewrite getDirectories_reads in H.
  destruct (directories_of (disk w) (join dirname "migration"))
    as [directories|e]; [|inversion H; subst; auto].
  unfold bind at 1 in H.
  destruct (fetchMigrations w) as [w2 [migrations|e]] eqn:FM;
    destruct (fetchMigrations_frame _ _ _ FM) as (D2 & C2 & L2 & E2);
    [|inversion H; subst; repeat split; congruence].
  unfold bind at 1 in H.
  destruct (rollback_loop all migrations 0 (rev directories) w2)
    as [w3 [[]|e]] eqn:LOOP;
    destruct (rollback_loop_frame _ _ _ _ _ _ _ LOOP) as (D3 & C3 & L3 & E3);
    inversion H; subst; simpl; repeat split; congruence.
Qed.

(** X1.  [process.exit()] is the last statement of [migrate] and of
    [rollback] and nothing catches on the way: a run reaches it exactly when
    it returns; a run that throws leaves the process as it was. *)
Theorem a_run_exits_exactly_when_it_returns
    (all : bool) (w w' : World) (r : Result unit) :
  migrate w = (w', r) \/ rollback all w = (w', r) ->
  exited w' = match r with Ok _ => true | Throw _ => exited w end.
Proof.
  intros [H|H]; [apply migrate_frame in H|apply rollback_frame in H]; tauto.
Qed.

(** X2.  Whatever a run of [migrate] or [rollback] does and however it ends,
    it has given back every client it took from the pool, and the catalog on
    disk and the clock are what they were: the runner reads the unit folders
    and never writes them. *)
Theorem a_run_returns_its_clients_and_keeps_the_catalog
    (all : bool) (w w' : World) (r : Result unit) :
  migrate w = (w', r) \/ rollback all w = (w', r) ->
  leased w' = leased w /\ disk w' = disk w /\ clock w' = clock w.
Proof.
  intros [H|H]; [apply migrate_frame in H|apply rollback_frame in H]; tauto.
Qed.

(** ** Discovery *)

Lemma lookup_join source segment node children :
  lookup source node = Some (Folder children) ->
  lookup (join source segment) node = assoc segment children.
Proof.
  unfold join. revert node.
  induction source as [|s rest IH]; simpl; intros node H.
  - inversion H; subst. destruct (assoc segment children); reflexivity.
  - destruct node as [c|ch]; [discriminate|].
    destruct (assoc s ch) as [child|]; [|discriminate]. auto.
Qed.

Lemma assoc_first {A} (l : list (string * A)) name (x : A) rest :
  ~ In name (map fst l) -> assoc name (l ++ (name, x) :: rest) = Some x.
Proof.
  induction l as [|[k v] l IH]; simpl; intros N.
  - rewrite String.eqb_refl. reflexivity.
  - destruct (String.eqb_spec k name); [exfalso; auto|]. apply IH. tauto.
Qed.

Lemma only_directories_children source d children :
  lookup source d = Some (Folder children) ->
  NoDup (map fst children) ->
  only_directories d (map (fun name => join source name) (map fst children)) =
  Ok (map (fun child => join source (fst child))
          (filter (fun child => is_folder (snd child)) children)).
Proof.
  intros L N.
  assert (forall before after,
            children = before ++ after ->
            only_directories d (map (fun name => join source name) (map fst after)) =
            Ok (map (fun child => join source (fst child))
                    (filter (fun child => is_folder (snd child)) after))) as G.
  { intros before after. revert before.
    induction after as [|[name node] after IH]; intros before E; [reflexivity|].
    cbn [map only_directories fst filter snd].
    unfold lstat_isDirectory. rewrite (lookup_join _ _ _ _ L).
    assert (assoc name children = Some node) as ->.
    { rewrite E. apply assoc_first. rewrite E, map_app in N.
      apply NoDup_remove_2 in N. intros I. apply N. apply in_or_app. left.
      exact I. }
    rewrite (IH (before ++ [(name, node)]))
      by (rewrite <- app_assoc; exact E).
    destruct node; reflexivity. }
  apply (G []). reflexivity.
Qed.

(** X3.  On a folder whose entries have distinct names, [getDirectories]
    returns, without touching anything and without ever throwing, the paths
    of the entries that are folders, in the order [readdirSync] enumerates
    them; regular files lying in the folder are left out. *)
Theorem getDirectories_lists_the_folders
    (source : Path) (children : list (string * Node)) (w : World) :
  lookup source (disk w) = Some (Folder children) ->
  NoDup (map fst children) ->
  getDirectories source w =
    (w, Ok (map (fun child => join source (fst child))
                (filter (fun child => is_folder (snd child)) children))).
Proof.
  intros L N. rewrite getDirectories_reads. f_equal.
  unfold directories_of, readdir. rewrite L.
  apply only_directories_children; assumption.
Qed.

(** X4.  When the folder to scan is missing, or is a regular file, the two
    commands fail differently.  [rollback] scans first: it throws the file
    system's error with the world untouched.  [migrate] scans after its
    CREATE TABLE transaction: it throws the same error, but once that
    transaction has succeeded the "Migration" table is there, created by a
    run that found no catalog. *)
Theorem discovery_failure_stops_the_run
    (all : bool) (e : Error) (w : World) :
  directories_of (disk w) root = Throw e ->
  rollback all w = (w, Throw e) /\
  (forall w1 x,
     transaction [CREATE_TABLE_IF_NOT_EXISTS_Migration] w = (w1, Ok x) ->
     migrate w = (w1, Throw e) /\
     (block w = Idle ->
      Migration (durable w1) = Some (applied_rows (durable w)))).
Proof.
  intros D. split.
  - unfold rollback. unfold bind at 1. rewrite getDirectories_reads.
    change (join dirname "migration") with root. rewrite D. reflexivity.
  - intros w1 x TX. split.
    + unfold migrate. unfold bind at 1. rewrite TX.
      unfold bind at 1. rewrite getDirectories_reads.
      change (join dirname "migration") with root.
      destruct (transaction_frame _ _ _ _ TX) as (D1 & _). rewrite D1, D.
      reflexivity.
    + intros I. destruct (ensure_table _ _ _ I TX) as (_ & _ & _ & _ & _ & _ & _ & OK).
      apply (OK x eq_refl).
Qed.

(** ** Reading a unit's version and name off its folder *)

Lemma split_dashless_whole a : dashless a = true -> split "-" a = [a].
Proof.
  induction a as [|c a IH]; simpl; intros H; [reflexivity|].
  apply andb_prop in H. destruct H as [C D].
  destruct (Ascii.eqb c "-"); [discriminate|]. rewrite (IH D). reflexivity.
Qed.

Lemma split_dashless_first a b :
  dashless a = true ->
  split "-" (a ++ String "-" b)%string = a :: split "-" b.
Proof.
  induction a as [|c a IH]; simpl; intros H; [reflexivity|].
  apply andb_prop in H. destruct H as [C D].
  destruct (Ascii.eqb c "-"); [discriminate|]. rewrite (IH D). reflexivity.
Qed.

Lemma basename_join path segment : basename (join path segment) = segment.
Proof. unfold basename, join. apply last_last. Qed.

(** X5.  The version of a unit is what stands before the first dash of its
    folder's name, and its name what stands between the first dash and the
    second: whatever follows a second dash is dropped, so ["7-add-users"] is
    recorded under the name ["add"]. *)
Theorem unit_id_cuts_at_the_dashes
    (path : Path) (version name more : string) :
  dashless version = true ->
  dashless name = true ->
  unit_id (join path (version ++ "-" ++ name)%string) = (version, Some name) /\
  unit_id (join path (version ++ "-" ++ name ++ "-" ++ more)%string)
    = (version, Some name).
Proof.
  intros V N. unfold unit_id. rewrite !basename_join.
  change ("-" ++ name)%string with (String "-" name).
  change ("-" ++ name ++ "-" ++ more)%string
    with (String "-" (name ++ String "-" more)).
  rewrite !split_dashless_first by assumption.
  rewrite split_dashless_whole by assumption. auto.
Qed.

(** X6.  A folder whose name has no dash gives a unit whose version is the
    whole name and whose name is [undefined]; [migrate] then sends the word
    "undefined" as the name to record. *)
Theorem unit_id_without_a_dash
    (migrations : list string) (path : Path) (rest : list Path)
    (folder query : string) (w : World) :
  dashless folder = true ->
  includes migrations folder = false ->
  readFile (join (join path folder) "up.sql") (disk w) = Ok query ->
  falsy query = false ->
  unit_id (join path folder) = (folder, None) /\
  migrate_loop migrations (join path folder :: rest) w =
    (transaction [INSERT_INTO_Migration folder "undefined"; SCRIPT query] ;;;
     console_log (MIGRATED folder None) ;;;
     migrate_loop migrations rest) w.
Proof.
  intros D INC R F.
  assert (unit_id (join path folder) = (folder, None)) as U.
  { unfold unit_id. rewrite basename_join, split_dashless_whole by assumption.
    reflexivity. }
  split; [exact U|].
  cbn [migrate_loop]. rewrite U, INC.
  unfold bind at 1, readFileSync, reading. rewrite R, F. reflexivity.
Qed.

(** ** One transaction, one client per unit *)

Lemma transaction_ok_wire q w w' rows :
  transaction q w = (w', Ok rows) ->
  wire w' = wire w ++ committed_exchange q.
Proof.
  destruct w as [db blk ex orc n wr co dk ck exi].
  unfold committed_exchange.
  unfold transaction, try_block, catch_block, bind, try_catch_finally,
    pool_connect, client_query, round_trip, client_release, server, ret, throw;
    simpl.
  repeat (break_match; simpl); intros H; inversion H; subst; simpl;
    repeat rewrite <- app_assoc; reflexivity.
Qed.


Lemma migrate_loop_wire migrations directories :
  forall w w',
    migrate_loop migrations directories w = (w', Ok tt) ->
    wire w' =
      wire w ++
      flat_map (fun s => committed_exchange (insert_batch s))
               (migrate_plan (disk w) migrations directories).
Proof.
  induction directories as [|directory rest IH]; intros w w' H.
  - simpl in H. inversion H; subst. simpl. rewrite app_nil_r. reflexivity.
  - cbn [migrate_loop] in H. rewrite migrate_plan_cons.
    unfold to_apply, up_step, script_of.
    destruct (unit_id directory) as [v n] eqn:U. cbn [fst snd].
    destruct (includes migrations v) eqn:INC; cbn [negb andb]; [eauto|].
    unfold bind at 1, readFileSync, reading in H.
    destruct (readFile (join directory "up.sql") (disk w)) as [query|e] eqn:R;
      [|discriminate].
    destruct (falsy query) eqn:F; cbn [negb]; [eauto|].
    unfold bind at 1 in H.
    destruct (transaction [INSERT_INTO_Migration v (interpolate n); SCRIPT query] w)
      as [w1 [res|e]] eqn:TX; [|discriminate].
    destruct (transaction_frame _ _ _ _ TX) as (D & _).
    pose proof (transaction_ok_wire _ _ _ _ TX) as W.
    unfold bind at 1, console_log in H.
    apply IH in H. cbn [wire disk set_console] in H.
    rewrite H, D, W. cbn [flat_map]. unfold insert_batch at 2.
    cbn [step_version step_name step_query].
    rewrite <- app_assoc. reflexivity.
Qed.

Lemma rollback_loop_wire all migrations directories :
  forall n w w',
    rollback_loop all migrations n directories w = (w', Ok tt) ->
    wire w' =
      wire w ++
      flat_map (fun s => committed_exchange (delete_batch s))
               (limit all n (rollback_plan (disk w) migrations directories)).
Proof.
  induction directories as [|directory rest IH]; intros n w w' H.
  - simpl in H. inversion H; subst.
    replace (limit all n (rollback_plan (disk w') migrations [])) with (@nil Step)
      by (unfold limit; destruct all; [|destruct n]; reflexivity).
    simpl. rewrite app_nil_r. reflexivity.
  - cbn [rollback_loop] in H.
    destruct (negb all && Nat.ltb 0 n) eqn:BRK.
    { inversion H; subst. rewrite limit_break by assumption.
      simpl. rewrite app_nil_r. reflexivity. }
    rewrite rollback_plan_cons. unfold to_revert, down_step, script_of.
    destruct (unit_id directory) as [v n0] eqn:U. cbn [fst snd].
    destruct (includes migrations v) eqn:INC; cbn [negb andb] in *; [|eauto].
    unfold bind at 1, readFileSync, reading in H.
    destruct (readFile (join directory "down.sql") (disk w)) as [query|e] eqn:R;
      [|discriminate].
    destruct (falsy query) eqn:F; cbn [negb]; [eauto|].
    unfold bind at 1 in H.
    destruct (transaction [DELETE_FROM_Migration v; SCRIPT query] w)
      as [w1 [res|e]] eqn:TX; [|discriminate].
    destruct (transaction_frame _ _ _ _ TX) as (D & _).
    pose proof (transaction_ok_wire _ _ _ _ TX) as W.
    unfold bind at 1, console_log in H.
    apply IH in H. cbn [wire disk set_console] in H.
    rewrite H, D, W.
    rewrite (limit_cons all n) by assumption.
    cbn [flat_map]. unfold delete_batch at 2.
    cbn [step_version step_name step_query].
    rewrite <- app_assoc. reflexivity.
Qed.

Lemma fetchMigrations_wire w w' migrations :
  fetchMigrations w = (w', Ok migrations) ->
  wire w' = wire w ++ committed_exchange [SELECT_FROM_Migration].
Proof.
  unfold fetchMigrations, bind. intros H.
  destruct (transaction [SELECT_FROM_Migration] w) as [w1 [rows|e]] eqn:TX;
    inversion H; subst.
  eapply transaction_ok_wire; exact TX.
Qed.

Lemma migrate_fetches w w1 w2 x migrations :
  block w = Idle ->
  transaction [CREATE_TABLE_IF_NOT_EXISTS_Migration] w = (w1, Ok x) ->
  fetchMigrations w1 = (w2, Ok migrations) ->
  migrations = applied_versions (durable w) /\ disk w2 = disk w.
Proof.
  intros I TX FM.
  destruct (ensure_table _ _ _ I TX) as (D1 & _ & _ & _ & R1 & _ & _ & OK1).
  destruct (OK1 x eq_refl) as (I1 & _).
  destruct (fetchMigrations_spec _ _ _ I1 FM) as (D2 & _ & _ & _ & _ & OK2).
  destruct (OK2 migrations eq_refl) as (_ & -> & _).
  split; [|congruence].
  unfold applied_versions, applied_keys. rewrite R1. reflexivity.
Qed.

(** X8.  A run of [migrate] that returns has talked to the server in
    transactions only, each on a client of its own, taken and given back:
    one for CREATE TABLE, one for the SELECT, then one per unit it applied,
    carrying that unit's INSERT and its up-script and nothing of another
    unit, in the order of the catalog. *)
Theorem migrate_runs_each_unit_in_a_transaction_of_its_own (w w' : World) :
  block w = Idle ->
  migrate w = (w', Ok tt) ->
  wire w' =
    wire w ++
    committed_exchange [CREATE_TABLE_IF_NOT_EXISTS_Migration] ++
    committed_exchange [SELECT_FROM_Migration] ++
    flat_map (fun s => committed_exchange (insert_batch s))
             (map (up_step (disk w))
                  (filter (to_apply (disk w) (applied_versions (durable w)))
                          (catalog (disk w)))).
Proof.
  intros I H. unfold migrate in H. unfold bind at 1 in H.
  destruct (transaction [CREATE_TABLE_IF_NOT_EXISTS_Migration] w)
    as [w1 [x|e]] eqn:TX; [|discriminate].
  destruct (transaction_frame _ _ _ _ TX) as (D1 & _).
  unfold bind at 1 in H. rewrite getDirectories_reads in H.
  change (join dirname "migration") with root in H.
  unfold catalog. rewrite <- D1.
  destruct (directories_of (disk w1) root) as [directories|e]; [|discriminate].
  unfold bind at 1 in H.
  destruct (fetchMigrations w1) as [w2 [migrations|e]] eqn:FM; [|discriminate].
  destruct (migrate_fetches _ _ _ _ _ I TX FM) as (-> & D2).
  unfold bind at 1 in H.
  destruct (migrate_loop (applied_versions (durable w)) directories w2)
    as [w3 [[]|e]] eqn:LOOP; [|discriminate].
  inversion H; subst. cbn [wire set_exited process_exit].
  rewrite (migrate_loop_wire _ _ _ _ LOOP), (fetchMigrations_wire _ _ _ FM),
    (transaction_ok_wire _ _ _ _ TX).
  rewrite D2, D1. unfold migrate_plan. rewrite <- !app_assoc. reflexivity.
Qed.

(** X9.  A run of [rollback] that returns has sent one transaction for the
    SELECT and then one per unit it reverted, each on a client of its own and
    carrying that unit's DELETE and its down-script: every applied unit with a
    script under [--all], the first of them in reverse catalog order
    without. *)
Theorem rollback_runs_each_unit_in_a_transaction_of_its_own
    (all : bool) (w w' : World) :
  block w = Idle ->
  rollback all w = (w', Ok tt) ->
  wire w' =
    wire w ++
    committed_exchange [SELECT_FROM_Migration] ++
    flat_map (fun s => committed_exchange (delete_batch s))
             (limit all 0
                (map (down_step (disk w))
                     (filter (to_revert (disk w) (applied_versions (durable w)))
                             (rev (catalog (disk w)))))).
Proof.
  intros I H. unfold rollback in H. unfold bind at 1 in H.
  rewrite getDirectories_reads in H.
  change (join dirname "migration") with root in H.
  unfold catalog.
  destruct (directories_of (disk w) root) as [directories|e]; [|discriminate].
  unfold bind at 1 in H.
  destruct (fetchMigrations w) as [w1 [migrations|e]] eqn:FM; [|discriminate].
  destruct (fetchMigrations_spec _ _ _ I FM) as (D1 & _ & _ & _ & _ & OK1).
  destruct (OK1 migrations eq_refl) as (_ & -> & _).
  unfold bind at 1 in H.
  destruct (rollback_loop all (applied_versions (durable w)) 0 (rev directories) w1)
    as [w2 [[]|e]] eqn:LOOP; [|discriminate].
  inversion H; subst. cbn [wire set_exited process_exit].
  rewrite (rollback_loop_wire _ _ _ _ _ _ LOOP), (fetchMigrations_wire _ _ _ FM).
  rewrite D1. unfold rollback_plan. rewrite <- !app_assoc. reflexivity.
Qed.

(** ** The primary key *)

Lemma migrate_loop_fresh migrations directories :
  forall w w' r rows,
    block w = Idle ->
    Migration (durable w) = Some rows ->
    migrate_loop migrations directories w = (w', r) ->
    exists new_rows,
      Migration (durable w') = Some (rows ++ new_rows) /\
      NoDup (keys new_rows) /\
      (forall k, In k (keys new_rows) -> ~ In k (keys rows)).
Proof.
  assert (forall (w : World) rows, Migration (durable w) = Some rows ->
    exists new_rows,
      Migration (durable w) = Some (rows ++ new_rows) /\
      NoDup (keys new_rows) /\
      (forall k, In k (keys new_rows) -> ~ In k (keys rows))) as STOP.
  { intros w rows T. exists []. rewrite app_nil_r. simpl.
    repeat split; [assumption|constructor|tauto]. }
  induction directories as [|directory rest IH]; intros w w' r rows I T H.
  - simpl in H. inversion H; subst. auto.
  - cbn [migrate_loop] in H. destruct (unit_id directory) as [v n].
    destruct (includes migrations v); [eauto|].
    unfold bind at 1, readFileSync, reading in H.
    destruct (readFile (join directory "up.sql") (disk w)) as [query|e];
      [|inversion H; subst; auto].
    destruct (falsy query); [eauto|].
    unfold bind at 1 in H.
    destruct (transaction [INSERT_INTO_Migration v (interpolate n); SCRIPT query] w)
      as [w1 [res|e]] eqn:TX.
    + destruct (transaction_ok _ _ _ _ TX I) as (I1 & ran & X & _).
      apply exec_insert_ok in X.
      destruct X as (rows0 & k & T0 & K & FRESH & T1 & _).
      rewrite T in T0. inversion T0; subst rows0.
      unfold bind at 1, console_log in H.
      destruct (IH (set_console (console w1 ++ [MIGRATED v n]) w1) _ _ _ I1 T1 H)
        as (new_rows & T' & ND & DISJ).
      exists (mkRow k (interpolate n) :: new_rows).
      rewrite <- app_assoc in T'. split; [exact T'|].
      unfold keys in *. cbn [map version]. split.
      * constructor; [|exact ND]. intros IN. apply (DISJ k IN).
        rewrite map_app. apply in_or_app. right. left. reflexivity.
      * intros k' [<-|IN]; [exact FRESH|].
        intros IN'. apply (DISJ k' IN). rewrite map_app.
        apply in_or_app. left. exact IN'.
    + inversion H; subst. rewrite (transaction_throw _ _ _ _ TX). auto.
Qed.

(** Over a whole run: the rows a run of [migrate] adds carry keys that were
    not in the table and that differ from one another. *)
Lemma migrate_fresh w w' r :
  block w = Idle ->
  migrate w = (w', r) ->
  exists new_rows,
    applied_rows (durable w') = applied_rows (durable w) ++ new_rows /\
    NoDup (keys new_rows) /\
    (forall k, In k (keys new_rows) -> ~ In k (applied_keys (durable w))).
Proof.
  intros I H.
  assert (forall w0 : World,
    applied_rows (durable w0) = applied_rows (durable w) ->
    exists new_rows,
      applied_rows (durable w0) = applied_rows (durable w) ++ new_rows /\
      NoDup (keys new_rows) /\
      (forall k, In k (keys new_rows) -> ~ In k (applied_keys (durable w))))
    as STOP.
  { intros w0 E. exists []. rewrite app_nil_r. simpl.
    repeat split; [assumption|constructor|tauto]. }
  unfold migrate in H. unfold bind at 1 in H.
  destruct (transaction [CREATE_TABLE_IF_NOT_EXISTS_Migration] w)
    as [w1 res1] eqn:TX1.
  destruct (ensure_table _ _ _ I TX1) as (_ & _ & _ & _ & R1 & _ & _ & OK1).
  destruct res1 as [x1|e1]; [|inversion H; subst; auto].
  destruct (OK1 x1 eq_refl) as (I1 & T1).
  unfold bind at 1 in H. rewrite getDirectories_reads in H.
  destruct (directories_of (disk w1) (join dirname "migration"))
    as [directories|e2]; [|inversion H; subst; auto].
  unfold bind at 1 in H.
  destruct (fetchMigrations w1) as [w2 res2] eqn:FM.
  destruct (fetchMigrations_spec _ _ _ I1 FM) as (_ & _ & _ & _ & DU2 & OK2).
  destruct res2 as [migrations|e2];
    [|inversion H; subst; apply STOP; congruence].
  destruct (OK2 migrations eq_refl) as (I2 & _ & _).
  unfold bind at 1 in H.
  destruct (migrate_loop migrations directories w2) as [w3 res3] eqn:LOOP.
  assert (Migration (durable w2) = Some (applied_rows (durable w))) as T2
    by (rewrite DU2; assumption).
  destruct (migrate_loop_fresh _ _ _ _ _ _ I2 T2 LOOP) as (new_rows & T3 & ND & DISJ).
  exists new_rows.
  assert (applied_rows (durable w3) = applied_rows (durable w) ++ new_rows) as AR
    by (unfold applied_rows at 1; rewrite T3; reflexivity).
  destruct res3 as [[]|e3]; inversion H; subst; simpl; auto.
Qed.

(** X10.  The rows a run of [migrate] adds, however it ends, come after the
    rows that were there, carry keys the table did not hold and no key
    twice: a table whose keys were distinct before the run has distinct keys
    after it. *)
Theorem migrate_inserts_fresh_and_distinct_keys (w w' : World) (r : Result unit) :
  block w = Idle ->
  migrate w = (w', r) ->
  exists new_rows,
    applied_rows (durable w') = applied_rows (durable w) ++ new_rows /\
    NoDup (keys new_rows) /\
    (forall k, In k (keys new_rows) -> ~ In k (applied_keys (durable w))) /\
    (NoDup (applied_keys (durable w)) -> NoDup (applied_keys (durable w'))).
Proof.
  intros I H. destruct (migrate_fresh _ _ _ I H) as (new_rows & AR & ND & DISJ).
  exists new_rows. repeat split; auto.
  intros ND0. unfold applied_keys in *. rewrite AR. unfold keys in *.
  rewrite map_app. apply NoDup_app; auto.
  intros k IN IN'. exact (DISJ k IN' IN).
Qed.




(** ** Units the runner cannot read, units it cannot see *)

Lemma migrate_loop_reads migrations directories :
  forall w w',
    migrate_loop migrations directories w = (w', Ok tt) ->
    forall d, In d directories ->
      includes migrations (fst (unit_id d)) = false ->
      exists query, readFile (join d "up.sql") (disk w) = Ok query.
Proof.
  induction directories as [|directory rest IH]; intros w w' H d IN INC;
    [contradiction|].
  cbn [migrate_loop] in H.
  destruct (unit_id directory) as [v n] eqn:U.
  destruct (includes migrations v) eqn:INC0.
  { destruct IN as [<-|IN]; [rewrite U in INC; cbn [fst] in INC; congruence|].
    eapply IH; eauto. }
  unfold bind at 1, readFileSync, reading in H.
  destruct (readFile (join directory "up.sql") (disk w)) as [query|e] eqn:R;
    [|discriminate].
  destruct IN as [<-|IN]; [eauto|].
  destruct (falsy query); [eapply IH; eauto|].
  unfold bind at 1 in H.
  destruct (transaction [INSERT_INTO_Migration v (interpolate n); SCRIPT query] w)
    as [w1 [res|e]] eqn:TX; [|discriminate].
  destruct (transaction_frame _ _ _ _ TX) as (D & _).
  unfold bind at 1, console_log in H.
  destruct (IH _ _ H d IN INC) as (q & Q). cbn [disk set_console] in Q.
  rewrite D in Q. eauto.
Qed.

Lemma rollback_all_loop_reads migrations directories :
  forall n w w',
    rollback_loop true migrations n directories w = (w', Ok tt) ->
    forall d, In d directories ->
      includes migrations (fst (unit_id d)) = true ->
      exists query, readFile (join d "down.sql") (disk w) = Ok query.
Proof.
  induction directories as [|directory rest IH]; intros n w w' H d IN INC;
    [contradiction|].
  cbn [rollback_loop negb andb] in H.
  destruct (unit_id directory) as [v n0] eqn:U.
  destruct (includes migrations v) eqn:INC0; cbn [negb] in H.
  2:{ destruct IN as [<-|IN]; [rewrite U in INC; cbn [fst] in INC; congruence|].
      eapply IH; eauto. }
  unfold bind at 1, readFileSync, reading in H.
  destruct (readFile (join directory "down.sql") (disk w)) as [query|e] eqn:R;
    [|discriminate].
  destruct IN as [<-|IN]; [eauto|].
  destruct (falsy query); [eapply IH; eauto|].
  unfold bind at 1 in H.
  destruct (transaction [DELETE_FROM_Migration v; SCRIPT query] w)
    as [w1 [res|e]] eqn:TX; [|discriminate].
  destruct (transaction_frame _ _ _ _ TX) as (D & _).
  unfold bind at 1, console_log in H.
  destruct (IH _ _ _ H d IN INC) as (q & Q). cbn [disk set_console] in Q.
  rewrite D in Q. eauto.
Qed.

(** X12.  Every folder under [migration] counts as a unit.  If a pending one
    has no [up.sql] that can be read (a stray folder, say), [migrate] throws;
    if an applied one has no [down.sql] that can be read, [rollback --all]
    throws.  Neither run returns. *)
Theorem a_unit_without_its_script_fails_the_run
    (w : World) (d : Path) (e : Error) :
  block w = Idle ->
  In d (catalog (disk w)) ->
  (includes (applied_versions (durable w)) (fst (unit_id d)) = false ->
   readFile (join d "up.sql") (disk w) = Throw e ->
   forall w' r, migrate w = (w', r) -> exists e', r = Throw e') /\
  (includes (applied_versions (durable w)) (fst (unit_id d)) = true ->
   readFile (join d "down.sql") (disk w) = Throw e ->
   forall w' r, rollback true w = (w', r) -> exists e', r = Throw e').
Proof.
  intros I IN. unfold catalog in IN. split.
  - intros INC R w' r H. destruct r as [[]|e']; [exfalso|eauto].
    unfold migrate in H. unfold bind at 1 in H.
    destruct (transaction [CREATE_TABLE_IF_NOT_EXISTS_Migration] w)
      as [w1 [x|e1]] eqn:TX; [|discriminate].
    destruct (transaction_frame _ _ _ _ TX) as (D1 & _).
    unfold bind at 1 in H. rewrite getDirectories_reads in H.
    change (join dirname "migration") with root in H. rewrite D1 in H.
    destruct (directories_of (disk w) root) as [directories|e2]; [|discriminate].
    unfold bind at 1 in H.
    destruct (fetchMigrations w1) as [w2 [migrations|e2]] eqn:FM; [|discriminate].
    destruct (migrate_fetches _ _ _ _ _ I TX FM) as (-> & D2).
    unfold bind at 1 in H.
    destruct (migrate_loop (applied_versions (durable w)) directories w2)
      as [w3 [[]|e3]] eqn:LOOP; [|discriminate].
    destruct (migrate_loop_reads _ _ _ _ LOOP d IN INC) as (q & Q).
    rewrite D2 in Q. congruence.
  - intros INC R w' r H. destruct r as [[]|e']; [exfalso|eauto].
    unfold rollback in H. unfold bind at 1 in H.
    rewrite getDirectories_reads in H.
    change (join dirname "migration") with root in H.
    destruct (directories_of (disk w) root) as [directories|e2]; [|discriminate].
    unfold bind at 1 in H.
    destruct (fetchMigrations w) as [w1 [migrations|e2]] eqn:FM; [|discriminate].
    destruct (fetchMigrations_spec _ _ _ I FM) as (D1 & _ & _ & _ & _ & OK1).
    destruct (OK1 migrations eq_refl) as (_ & -> & _).
    unfold bind at 1 in H.
    destruct (rollback_loop true (applied_versions (durable w)) 0 (rev directories) w1)
      as [w2 [[]|e3]] eqn:LOOP; [|discriminate].
    apply in_rev in IN.
    destruct (rollback_all_loop_reads _ _ _ _ _ LOOP d IN INC) as (q & Q).
    rewrite D1 in Q. congruence.
Qed.

(** X13.  [rollback] reverts folders, not rows: a row of the table whose key
    no folder of the catalog carries (its unit was deleted or renamed, or
    applied from another checkout) is still there after any run, with or
    without [--all]. *)
Theorem rollback_keeps_the_rows_of_units_it_cannot_see
    (all : bool) (w w' : World) (r : Result unit) (row : Row) :
  block w = Idle ->
  rollback all w = (w', r) ->
  In row (applied_rows (durable w)) ->
  (forall d, In d (catalog (disk w)) -> key_of d <> Some (version row)) ->
  In row (applied_rows (durable w')).
Proof.
  intros I H IN ABSENT.
  destruct (rollback_spec _ _ _ _ I H) as (done & todo & attempt & P & _ & _ & TB & _).
  unfold applied_rows in *. rewrite TB.
  destruct (Migration (durable w)) as [rows|]; [|contradiction]. simpl.
  apply filter_In. split; [exact IN|].
  destruct (deleted_by done row) eqn:D; [exfalso|reflexivity].
  unfold deleted_by in D. apply existsb_exists in D.
  destruct D as (s & Hs & E).
  destruct (sql_bigint (step_version s)) as [k|] eqn:K; [|discriminate].
  apply Z.eqb_eq in E. subst k.
  assert (In s (rollback_plan (disk w) (applied_versions (durable w))
                              (rev (catalog (disk w))))) as PL.
  { assert (In s (limit all 0 (rollback_plan (disk w) (applied_versions (durable w))
                                             (rev (catalog (disk w))))))
      as L by (rewrite P; apply in_or_app; left; assumption).
    unfold limit in L. destruct all; [assumption|].
    destruct (rollback_plan (disk w) (applied_versions (durable w))
                            (rev (catalog (disk w)))); simpl in L;
      [contradiction|]. destruct L as [->|[]]. left. reflexivity. }
  destruct (rollback_plan_In _ _ _ _ PL) as (d & Hd & _ & ->).
  apply in_rev in Hd. apply (ABSENT d Hd).
  unfold key_of. exact K.
Qed.

(** ** The table and the schema *)




(** X16.  [fetchMigrations] changes nothing: the database, the scripts run,
    the console and the disk are what they were and the client is given
    back.  What it returns is the decimal text of the version of every row,
    in the order of the rows (the SELECT has no ORDER BY), not numbers; and
    it returns only if the "Migration" table exists. *)
Theorem fetchMigrations_reads_the_versions_in_row_order
    (w w' : World) (r : Result (list string)) :
  block w = Idle ->
  fetchMigrations w = (w', r) ->
  durable w' = durable w /\ executed w' = executed w /\
  console w' = console w /\ disk w' = disk w /\ leased w' = leased w /\
  (Migration (durable w) = None -> exists e, r = Throw e) /\
  (forall migrations,
     r = Ok migrations ->
     migrations =
       map (fun row => show_bigint (version row)) (applied_rows (durable w)) /\
     wire w' = wire w ++ committed_exchange [SELECT_FROM_Migration]).
Proof.
  intros I H.
  destruct (fetchMigrations_spec _ _ _ I H) as (D & C & X & _ & DU & OK).
  destruct (fetchMigrations_frame _ _ _ H) as (_ & _ & L & _).
  repeat split; auto.
  - intros T. destruct r as [migrations|e]; [|eauto].
    destruct (OK migrations eq_refl) as (_ & _ & N). contradiction.
  - subst r. destruct (OK migrations eq_refl) as (_ & -> & _).
    unfold applied_versions, applied_keys, keys. rewrite map_map. reflexivity.
  - subst r. eapply fetchMigrations_wire; exact H.
Qed.

(** ** Runs on a healthy connection *)








(** ** A down-script that fails *)

(** X26.  Reverting is as atomic as applying.  For a down-script that
    carries no transaction control of its own: when the server refuses the
    query text made of the unit's DELETE and its down-script, at whatever
    statement, the loop of [rollback] stops there in an error whatever
    becomes of the connection: nothing is logged, no unit after it is tried,
    the client is given back and the committed database is what it was, so
    the unit's row is still in the table and nothing the script did to the
    schema has stayed.  Once a client is acquired ROLLBACK is the last query
    sent on it; on a healthy connection the error is the server's and no
    transaction block is left open. *)
Theorem failed_down_script_leaves_no_trace
    (all : bool) (migrations : list string) (removedCount : nat)
    (directory : Path) (rest : list Path)
    (version : string) (name : option string) (query : string)
    (w : World) (db : Database) (ran : list string) (e0 : Error) :
  negb all && Nat.ltb 0 removedCount = false ->
  unit_id directory = (version, name) ->
  includes migrations version = true ->
  readFile (join directory "down.sql") (disk w) = Ok query ->
  falsy query = false ->
  pieces query = [Plain query] ->
  block w = Idle ->
  exec_batch [DELETE_FROM_Migration version; SCRIPT query] (durable w)
    = (db, ran, Throw e0) ->
  forall w' r,
    Verbatim.rollback_loop all migrations removedCount (directory :: rest) w
      = (w', r) ->
    (exists e, r = Throw e) /\
    durable w' = durable w /\
    console w' = console w /\
    leased w' = leased w /\
    (forall w1, pool_connect w = (w1, Ok tt) ->
       exists before,
         wire w' =
           wire w ++ Acquire :: map Send (before ++ [ROLLBACK]) ++ [Release]) /\
    (oracle w = [] ->
       r = Throw e0 /\ block w' = Idle /\ executed w' = executed w ++ ran /\
       wire w' =
         wire w ++
         [Acquire; Send BEGIN;
          Send (BATCH [DELETE_FROM_Migration version; SCRIPT query]);
          Send ROLLBACK; Release]).
Proof.
  intros BRK U INC R F P I X w' r H.
  cbn [Verbatim.rollback_loop] in H. rewrite BRK, U, INC in H. cbn [negb] in H.
  unfold bind at 1, readFileSync, reading in H. rewrite R, F in H.
  unfold bind at 1 in H.
  rewrite (Verbatim_transaction_plain _ _ (plain_delete _ _ P)) in H.
  destruct (transaction [DELETE_FROM_Migration version; SCRIPT query] w)
    as [w1 r1] eqn:TX.
  destruct (refused_batch_throws _ _ _ _ _ _ _ I X TX)
    as ((e & ->) & DU & C & L & _ & W & O).
  inversion H; subst w' r.
  split; [eauto|]. split; [exact DU|]. split; [exact C|]. split; [exact L|].
  split; [exact W|].
  intros HO. destruct (O HO) as (E & B & EX & WI). inversion E; subst. auto.
Qed.

(** ** Versions that are the decimal text of their key

    The versions [rollback] works on are those [fetchMigrations] returned,
    that is the decimal text of the keys in the table; the server reads such
    a text back as the key. *)

Section Decimal.

Hypothesis sql_bigint_show : forall k, sql_bigint (show_bigint k) = Some k.

Lemma show_bigint_inj a b : show_bigint a = show_bigint b -> a = b.
Proof.
  intros H. pose proof (sql_bigint_show a) as Ha. rewrite H in Ha.
  rewrite sql_bigint_show in Ha. congruence.
Qed.

Lemma includes_In l x : includes l x = true <-> In x l.
Proof.
  unfold includes. rewrite existsb_exists. split.
  - intros (y & Hy & E). apply String.eqb_eq in E. congruence.
  - intros H. exists x. split; [assumption|apply String.eqb_refl].
Qed.




Lemma applied_rows_after_rollback (db db' : Database) done :
  Migration db' =
    option_map (filter (fun row => negb (deleted_by done row))) (Migration db) ->
  applied_rows db' = filter (fun row => negb (deleted_by done row)) (applied_rows db).
Proof.
  unfold applied_rows. intros ->. destruct (Migration db); reflexivity.
Qed.









(** ** Scaffolding: [create] *)

Lemma assoc_upsert_same {A} key (v : A) l : assoc key (upsert key v l) = Some v.
Proof.
  induction l as [|[k x] l IH]; simpl.
  - rewrite String.eqb_refl. reflexivity.
  - destruct (String.eqb k key) eqn:E; simpl; rewrite E; auto.
Qed.

Lemma assoc_upsert_other {A} key key' (v : A) l :
  key <> key' -> assoc key' (upsert key v l) = assoc key' l.
Proof.
  intros N. induction l as [|[k x] l IH]; simpl.
  - destruct (String.eqb_spec key key'); [contradiction|reflexivity].
  - destruct (String.eqb_spec k key); simpl.
    + subst k. destruct (String.eqb_spec key key'); [contradiction|reflexivity].
    + rewrite IH. reflexivity.
Qed.

Lemma lookup_mkdirp path :
  forall node node',
    mkdirp path node = Some node' ->
    exists children, lookup path node' = Some (Folder children).
Proof.
  induction path as [|segment rest IH]; simpl; intros node node' H.
  - destruct node as [[c|children]|]; inversion H; eauto.
  - destruct node as [[c|children]|]; try discriminate.
    + destruct (mkdirp rest (assoc segment children)) as [child|] eqn:M;
        [|discriminate].
      inversion H; subst. rewrite assoc_upsert_same. eapply IH; eauto.
    + destruct (mkdirp rest None) as [child|] eqn:M; [|discriminate].
      inversion H; subst. simpl. rewrite String.eqb_refl. eapply IH; eauto.
Qed.

Lemma lookup_truncate path :
  forall node node',
    truncate path node = Some node' ->
    lookup path node' = Some (File EmptyString).
Proof.
  induction path as [|segment rest IH]; simpl; intros node node' H;
    [discriminate|].
  destruct rest as [|next rest].
  - destruct node as [c|children]; [discriminate|].
    destruct (assoc segment children) as [[c|ch]|]; inversion H; subst;
      simpl; rewrite assoc_upsert_same; reflexivity.
  - destruct node as [c|children]; [discriminate|].
    destruct (assoc segment children) as [child|]; [|discriminate].
    destruct (truncate (next :: rest) child) as [child'|] eqn:T; [|discriminate].
    inversion H; subst. rewrite assoc_upsert_same. eapply IH; eauto.
Qed.

(** Truncating a file leaves a folder on the way to it a folder, and the
    other files of its folder what they were. *)
Lemma lookup_truncate_parent directory :
  forall leaf node node' children,
    truncate (join directory leaf) node = Some node' ->
    lookup directory node = Some (Folder children) ->
    exists children', lookup directory node' = Some (Folder children').
Proof.
  unfold join.
  induction directory as [|segment rest IH]; simpl; intros leaf node node' ch H L.
  - inversion L; subst.
    destruct (assoc leaf ch) as [[c|ch']|]; inversion H; eauto.
  - destruct (rest ++ [leaf]) as [|next rest'] eqn:E;
      [destruct rest; discriminate|].
    destruct node as [c|children]; [discriminate|].
    destruct (assoc segment children) as [child|]; [|discriminate].
    destruct (truncate (next :: rest') child) as [child'|] eqn:T; [|discriminate].
    inversion H; subst. rewrite assoc_upsert_same.
    rewrite <- E in T. eapply IH; eauto.
Qed.

Lemma lookup_truncate_sibling directory :
  forall leaf other node node',
    truncate (join directory leaf) node = Some node' ->
    leaf <> other ->
    lookup (join directory other) node' = lookup (join directory other) node.
Proof.
  unfold join.
  induction directory as [|segment rest IH]; simpl; intros leaf other node node' H N.
  - destruct node as [c|children]; [discriminate|].
    destruct (assoc leaf children) as [[c|ch']|]; inversion H; subst;
      simpl; rewrite assoc_upsert_other by assumption; reflexivity.
  - destruct (rest ++ [leaf]) as [|next rest'] eqn:E;
      [destruct rest; discriminate|].
    destruct node as [c|children]; [discriminate|].
    destruct (assoc segment children) as [child|] eqn:A; [|discriminate].
    destruct (truncate (next :: rest') child) as [child'|] eqn:T; [|discriminate].
    inversion H; subst. rewrite assoc_upsert_same.
    rewrite <- E in T. eapply IH; eauto.
Qed.

Lemma create_spec title w w' :
  create title w = (w', Ok tt) ->
  clock w' = clock w /\ durable w' = durable w /\
  lstat_isDirectory (unit_folder title (clock w)) (disk w') = Ok true /\
  readFile (join (unit_folder title (clock w)) "up.sql") (disk w') = Ok EmptyString /\
  readFile (join (unit_folder title (clock w)) "down.sql") (disk w') = Ok EmptyString.
Proof.
  unfold create, bind, Date_now, mkdirSync, touch.
  change (join (join dirname "migration")
               (show_bigint (clock w) ++ "-" ++ upperFirst (camelCase title))%string)
    with (unit_folder title (clock w)).
  set (folder := unit_folder title (clock w)).
  destruct (mkdirp folder (Some (disk w))) as [n1|] eqn:M; [|discriminate].
  cbn [disk set_disk].
  destruct (truncate (join folder "up.sql") n1) as [n2|] eqn:T1; [|discriminate].
  cbn [disk set_disk].
  destruct (truncate (join folder "down.sql") n2) as [n3|] eqn:T2; [|discriminate].
  intros H. inversion H; subst w'. cbn [clock durable disk set_disk].
  destruct (lookup_mkdirp _ _ _ M) as (ch1 & L1).
  destruct (lookup_truncate_parent _ _ _ _ _ T1 L1) as (ch2 & L2).
  destruct (lookup_truncate_parent _ _ _ _ _ T2 L2) as (ch3 & L3).
  repeat split.
  - unfold lstat_isDirectory. rewrite L3. reflexivity.
  - unfold readFile.
    rewrite (lookup_truncate_sibling _ _ _ _ _ T2) by discriminate.
    rewrite (lookup_truncate _ _ _ T1). reflexivity.
  - unfold readFile. rewrite (lookup_truncate _ _ _ T2). reflexivity.
Qed.

(** The decimal text of a non-negative number has no dash, so [split] finds
    the version of a created folder in front of the first dash. *)
Lemma dashless_uint d : dashless (NilEmpty.string_of_uint d) = true.
Proof. induction d; simpl; auto. Qed.

Lemma dashless_show_bigint k : (0 <= k)%Z -> dashless (show_bigint k) = true.
Proof.
  intros H. unfold show_bigint. destruct k as [|p|p]; [reflexivity| |lia].
  simpl. unfold NilZero.string_of_uint.
  destruct (Pos.to_uint p); try apply dashless_uint. reflexivity.
Qed.

Lemma split_dashless a b :
  dashless a = true ->
  hd EmptyString (split "-" (a ++ String "-" b)%string) = a.
Proof.
  induction a as [|c a IH]; simpl; intros H; [reflexivity|].
  apply andb_prop in H. destruct H as [C D].
  destruct (Ascii.eqb c "-"); [discriminate|].
  specialize (IH D).
  destruct (split "-" (a ++ String "-" b)%string) as [|piece pieces];
    simpl in *; congruence.
Qed.

Lemma unit_id_unit_folder title now :
  (0 <= now)%Z ->
  fst (unit_id (unit_folder title now)) = show_bigint now.
Proof.
  intros H. unfold unit_id, unit_folder, basename, join. rewrite last_last.
  cbn [fst]. apply split_dashless. apply dashless_show_bigint. assumption.
Qed.

(** C9 (as amended).  The key [create] gives a unit is the reading of the
    millisecond clock at the call, whatever was generated before: of two
    calls in one process the later one gets the greater key exactly when the
    clock has advanced between them, the same key when it has not, and a
    smaller one when the clock was set back.  Each call that returns leaves a
    folder named key, dash, [upperFirst (camelCase title)] under [migration],
    holding an empty [up.sql] and an empty [down.sql]; for a clock at or after
    the epoch the runner reads the key back from that folder's name. *)
Theorem create_takes_its_key_from_the_clock
    (title1 title2 : string) (dt : Z) (w w1 w2 : World) :
  create title1 w = (w1, Ok tt) ->
  create title2 (elapse dt w1) = (w2, Ok tt) ->
  let key1 := clock w in
  let key2 := clock (elapse dt w1) in
  key2 = (key1 + dt)%Z /\
  ((key1 < key2)%Z <-> (0 < dt)%Z) /\
  (lstat_isDirectory (unit_folder title1 key1) (disk w1) = Ok true /\
   readFile (join (unit_folder title1 key1) "up.sql") (disk w1) = Ok EmptyString /\
   readFile (join (unit_folder title1 key1) "down.sql") (disk w1) = Ok EmptyString) /\
  (lstat_isDirectory (unit_folder title2 key2) (disk w2) = Ok true /\
   readFile (join (unit_folder title2 key2) "up.sql") (disk w2) = Ok EmptyString /\
   readFile (join (unit_folder title2 key2) "down.sql") (disk w2) = Ok EmptyString) /\
  ((0 <= key1)%Z -> key_of (unit_folder title1 key1) = Some key1) /\
  ((0 <= key2)%Z -> key_of (unit_folder title2 key2) = Some key2).
Proof.
  intros C1 C2 key1 key2.
  destruct (create_spec _ _ _ C1) as (CK1 & _ & F1).
  destruct (create_spec _ _ _ C2) as (_ & _ & F2).
  assert (key2 = (key1 + dt)%Z) as E
    by (unfold key2, key1, elapse; simpl; rewrite CK1; reflexivity).
  split; [exact E|]. split; [lia|]. split; [exact F1|]. split; [exact F2|].
  split; intros H; unfold key_of; rewrite unit_id_unit_folder by assumption;
    apply sql_bigint_show.
Qed.

(** ** What [create] leaves alone, and what it overwrites *)

Lemma mkdirp_diverge common a p b q :
  a <> b ->
  forall node node',
    mkdirp (common ++ a :: p) node = Some node' ->
    lookup (common ++ b :: q) node' =
      match node with
      | Some n => lookup (common ++ b :: q) n
      | None => None
      end.
Proof.
  intros N. induction common as [|s common IH]; intros node node' H.
  - cbn [app mkdirp] in H. cbn [app lookup].
    destruct node as [[c|children]|]; [discriminate| |].
    + destruct (mkdirp p (assoc a children)) as [child|]; [|discriminate].
      inversion H; subst. rewrite assoc_upsert_other by assumption. reflexivity.
    + destruct (mkdirp p None) as [child|]; [|discriminate].
      inversion H; subst. simpl.
      destruct (String.eqb_spec a b); [contradiction|reflexivity].
  - cbn [app mkdirp] in H. cbn [app lookup].
    destruct node as [[c|children]|]; [discriminate| |].
    + destruct (mkdirp (common ++ a :: p) (assoc s children)) as [child|] eqn:M;
        [|discriminate].
      inversion H; subst. rewrite assoc_upsert_same.
      rewrite (IH _ _ M). destruct (assoc s children); reflexivity.
    + destruct (mkdirp (common ++ a :: p) None) as [child|] eqn:M; [|discriminate].
      inversion H; subst. simpl. rewrite String.eqb_refl. apply (IH _ _ M).
Qed.

Lemma truncate_diverge common a p b q :
  a <> b ->
  forall node node',
    truncate (common ++ a :: p) node = Some node' ->
    lookup (common ++ b :: q) node' = lookup (common ++ b :: q) node.
Proof.
  intros N. induction common as [|s common IH]; intros node node' H.
  - cbn [app] in *. cbn [lookup]. simpl in H.
    destruct p as [|next p].
    + destruct node as [c|children]; [discriminate|].
      destruct (assoc a children) as [[c|ch]|]; inversion H; subst;
        rewrite assoc_upsert_other by assumption; reflexivity.
    + destruct node as [c|children]; [discriminate|].
      destruct (assoc a children) as [child|]; [|discriminate].
      destruct (truncate (next :: p) child) as [child'|]; [|discriminate].
      inversion H; subst. rewrite assoc_upsert_other by assumption. reflexivity.
  - cbn [app] in *. cbn [lookup]. simpl in H.
    destruct (common ++ a :: p) as [|next rest] eqn:E;
      [destruct common; discriminate|].
    destruct node as [c|children]; [discriminate|].
    destruct (assoc s children) as [child|] eqn:A; [|discriminate].
    destruct (truncate (next :: rest) child) as [child'|] eqn:T; [|discriminate].
    inversion H; subst. rewrite assoc_upsert_same.
    rewrite <- E in T, IH. apply (IH _ _ T).
Qed.

Lemma create_disk title w w' r :
  create title w = (w', r) ->
  durable w' = durable w /\ block w' = block w /\ executed w' = executed w /\
  oracle w' = oracle w /\ leased w' = leased w /\ wire w' = wire w /\
  console w' = console w /\ clock w' = clock w /\ exited w' = exited w /\
  forall common b q,
    (exists p, unit_folder title (clock w) = common ++ p /\
               match p with [] => False | a :: _ => a <> b end) ->
    lookup (common ++ b :: q) (disk w') = lookup (common ++ b :: q) (disk w).
Proof.
  unfold create, bind, Date_now, mkdirSync, touch.
  change (join (join dirname "migration")
               (show_bigint (clock w) ++ "-" ++ upperFirst (camelCase title))%string)
    with (unit_folder title (clock w)).
  set (folder := unit_folder title (clock w)).
  assert (forall node node' common b q,
            (exists p, folder = common ++ p /\
                       match p with [] => False | a :: _ => a <> b end) ->
            forall leaf,
              truncate (join folder leaf) node = Some node' ->
              lookup (common ++ b :: q) node' = lookup (common ++ b :: q) node) as TR.
  { intros node node' common b q (p & E & N) leaf T.
    destruct p as [|a p]; [contradiction|].
    unfold join in T. rewrite E, <- app_assoc in T. cbn [app] in T.
    exact (truncate_diverge _ _ _ _ q N _ _ T). }
  assert (forall node' common b q,
            (exists p, folder = common ++ p /\
                       match p with [] => False | a :: _ => a <> b end) ->
            mkdirp folder (Some (disk w)) = Some node' ->
            lookup (common ++ b :: q) node' = lookup (common ++ b :: q) (disk w)) as MK.
  { intros node' common b q (p & E & N) M.
    destruct p as [|a p]; [contradiction|].
    rewrite E in M. exact (mkdirp_diverge _ _ _ _ q N _ _ M). }
  destruct (mkdirp folder (Some (disk w))) as [n1|] eqn:M.
  2:{ intros H. inversion H; subst. repeat split; auto. }
  cbn [disk set_disk].
  destruct (truncate (join folder "up.sql") n1) as [n2|] eqn:T1.
  2:{ intros H. inversion H; subst. cbn. repeat split; auto. }
  cbn [disk set_disk].
  destruct (truncate (join folder "down.sql") n2) as [n3|] eqn:T2.
  2:{ intros H. inversion H; subst. cbn. repeat split; auto.
      intros common b q D. rewrite (TR _ _ _ _ q D _ T1). auto. }
  intros H. inversion H; subst. cbn. repeat split; auto.
  intros common b q D.
  rewrite (TR _ _ _ _ q D _ T2), (TR _ _ _ _ q D _ T1). auto.
Qed.

(** X17.  [create] writes nothing but its own folder and never talks to the
    database.  However the call ends, the database, the wire, the console
    and the clock are what they were; every other entry of [migration], with
    everything below it, is what it was; and so is everything beside
    [migration]. *)
Theorem create_touches_nothing_but_its_folder
    (title : string) (w w' : World) (r : Result unit) :
  create title w = (w', r) ->
  durable w' = durable w /\ wire w' = wire w /\ console w' = console w /\
  leased w' = leased w /\ exited w' = exited w /\ clock w' = clock w /\
  (forall entry below,
     join root entry <> unit_folder title (clock w) ->
     lookup (join root entry ++ below) (disk w')
       = lookup (join root entry ++ below) (disk w)) /\
  (forall entry below,
     entry <> "migration"%string ->
     lookup (entry :: below) (disk w') = lookup (entry :: below) (disk w)).
Proof.
  intros H.
  destruct (create_disk _ _ _ _ H)
    as (DU & _ & _ & _ & L & W & C & CK & EX & DISK).
  repeat split; auto.
  - intros entry below N.
    unfold join. rewrite <- app_assoc. cbn [app]. apply DISK.
    unfold unit_folder, join in *.
    eexists. split; [reflexivity|]. cbn beta iota. intros E. apply N.
    rewrite E. reflexivity.
  - intros entry below N. apply (DISK [] entry below).
    unfold unit_folder, root, join, dirname. cbn [app].
    eexists. split; [reflexivity|]. cbn beta iota. congruence.
Qed.

Lemma upsert_same {A} key (v : A) l : assoc key l = Some v -> upsert key v l = l.
Proof.
  induction l as [|[k x] l IH]; simpl; [discriminate|].
  destruct (String.eqb k key); intros H; [congruence|].
  rewrite IH by assumption. reflexivity.
Qed.

Lemma mkdirp_existing path :
  forall node children,
    lookup path node = Some (Folder children) ->
    mkdirp path (Some node) = Some node.
Proof.
  induction path as [|s rest IH]; simpl; intros node children H.
  - inversion H; subst. reflexivity.
  - destruct node as [c|ch]; [discriminate|].
    destruct (assoc s ch) as [child|] eqn:A; [|discriminate].
    rewrite (IH _ _ H). simpl. rewrite upsert_same by assumption. reflexivity.
Qed.

Lemma lookup_app p q node :
  lookup (p ++ q) node =
    match lookup p node with
    | Some n => lookup q n
    | None => None
    end.
Proof.
  revert node. induction p as [|s p IH]; simpl; intros node; [reflexivity|].
  destruct node as [c|ch]; [reflexivity|].
  destruct (assoc s ch); auto.
Qed.

Lemma truncate_existing directory leaf :
  forall node content,
    lookup (join directory leaf) node = Some (File content) ->
    exists node', truncate (join directory leaf) node = Some node'.
Proof.
  unfold join.
  induction directory as [|s rest IH]; simpl; intros node content H.
  - destruct node as [c|ch]; [discriminate|].
    destruct (assoc leaf ch) as [[c|ch']|]; try discriminate; eauto.
  - destruct (rest ++ [leaf]) as [|next rest'] eqn:E;
      [destruct rest; discriminate|].
    destruct node as [c|ch]; [discriminate|].
    destruct (assoc s ch) as [child|]; [|discriminate].
    rewrite <- E in *. destruct (IH _ _ H) as (child' & ->). simpl. eauto.
Qed.

(** X18.  [create] does not look before it writes.  When the folder it is
    about to make is already there with its two scripts (the same title
    within the same millisecond, or a clock set back), the call succeeds all
    the same and leaves both scripts empty: what they held is lost. *)
Theorem create_on_an_existing_unit_empties_its_scripts
    (title up down : string) (w : World) :
  readFile (join (unit_folder title (clock w)) "up.sql") (disk w) = Ok up ->
  readFile (join (unit_folder title (clock w)) "down.sql") (disk w) = Ok down ->
  exists w',
    create title w = (w', Ok tt) /\
    readFile (join (unit_folder title (clock w)) "up.sql") (disk w')
      = Ok EmptyString /\
    readFile (join (unit_folder title (clock w)) "down.sql") (disk w')
      = Ok EmptyString.
Proof.
  intros U D.
  set (folder := unit_folder title (clock w)) in *.
  assert (exists content, lookup (join folder "up.sql") (disk w) = Some (File content))
    as (cu & LU).
  { unfold readFile in U.
    destruct (lookup (join folder "up.sql") (disk w)) as [[c|ch]|];
      try discriminate; eauto. }
  assert (exists content, lookup (join folder "down.sql") (disk w) = Some (File content))
    as (cd & LD).
  { unfold readFile in D.
    destruct (lookup (join folder "down.sql") (disk w)) as [[c|ch]|];
      try discriminate; eauto. }
  assert (exists children, lookup folder (disk w) = Some (Folder children))
    as (children & LF).
  { unfold join in LU. rewrite lookup_app in LU.
    destruct (lookup folder (disk w)) as [[c|ch]|]; try discriminate; eauto. }
  destruct (truncate_existing _ _ _ _ LU) as (n2 & T1).
  rewrite <- (lookup_truncate_sibling _ _ _ _ _ T1) in LD by discriminate.
  destruct (truncate_existing _ _ _ _ LD) as (n3 & T2).
  assert (create title w = (set_disk n3 (set_disk n2 (set_disk (disk w) w)), Ok tt))
    as RUN.
  { unfold create, bind, Date_now, mkdirSync, touch.
    change (join (join dirname "migration")
                 (show_bigint (clock w) ++ "-" ++ upperFirst (camelCase title))%string)
      with folder.
    rewrite (mkdirp_existing _ _ _ LF). cbn [disk set_disk].
    rewrite T1. cbn [disk set_disk]. rewrite T2. reflexivity. }
  eexists. split; [exact RUN|].
  destruct (create_spec _ _ _ RUN) as (_ & _ & _ & RU & RD). auto.
Qed.

(** X19.  A unit fresh from [create] is invisible to the runner: as long as
    its two scripts are empty, the loop of [migrate] and the loop of
    [rollback] pass over its folder without a query, whether or not its key
    is in the table, and go on with the folders that follow. *)
Theorem a_created_unit_is_passed_over
    (title : string) (w w1 w2 : World)
    (all : bool) (migrations : list string) (removedCount : nat)
    (rest : list Path) :
  create title w = (w1, Ok tt) ->
  disk w2 = disk w1 ->
  migrate_loop migrations (unit_folder title (clock w) :: rest) w2
    = migrate_loop migrations rest w2 /\
  rollback_loop all migrations removedCount (unit_folder title (clock w) :: rest) w2
    = rollback_loop all migrations removedCount rest w2.
Proof.
  intros C D. destruct (create_spec _ _ _ C) as (_ & _ & _ & RU & RD).
  rewrite <- D in RU, RD. split.
  - cbn [migrate_loop]. destruct (unit_id (unit_folder title (clock w))) as [v n].
    destruct (includes migrations v); [reflexivity|].
    unfold bind at 1, readFileSync, reading. rewrite RU. reflexivity.
  - cbn [rollback_loop].
    destruct (negb all && Nat.ltb 0 removedCount) eqn:BRK.
    { destruct rest; cbn [rollback_loop]; [|rewrite BRK]; reflexivity. }
    destruct (unit_id (unit_folder title (clock w))) as [v n].
    destruct (negb (includes migrations v)); [reflexivity|].
    unfold bind at 1, readFileSync, reading. rewrite RD. reflexivity.
Qed.

(** ** From [create] to discovery *)

Lemma assoc_In {A} name (l : list (string * A)) :
  In name (map fst l) -> exists v, assoc name l = Some v.
Proof.
  induction l as [|[k v] l IH]; simpl; [tauto|].
  intros [->|IN]; [rewrite String.eqb_refl; eauto|].
  destruct (String.eqb k name); eauto.
Qed.

Lemma In_upsert {A} key (v : A) l name :
  In name (map fst (upsert key v l)) <-> name = key \/ In name (map fst l).
Proof.
  induction l as [|[k x] l IH]; simpl.
  - intuition congruence.
  - destruct (String.eqb_spec k key); simpl; [subst; intuition congruence|].
    rewrite IH. intuition congruence.
Qed.

Lemma only_directories_total d source children :
  lookup source d = Some (Folder children) ->
  forall names,
    (forall name, In name names -> In name (map fst children)) ->
    exists l, only_directories d (map (fun name => join source name) names) = Ok l.
Proof.
  intros L. induction names as [|name names IH]; intros SUB; simpl; [eauto|].
  unfold lstat_isDirectory at 1. rewrite (lookup_join _ _ _ _ L).
  destruct (assoc_In name children (SUB name (or_introl eq_refl))) as (v & ->).
  destruct IH as (l & ->); [intros; apply SUB; right; assumption|].
  destruct v; eauto.
Qed.

Lemma only_directories_In d paths :
  forall l,
    only_directories d paths = Ok l ->
    forall p, In p l <-> In p paths /\ lstat_isDirectory p d = Ok true.
Proof.
  induction paths as [|path paths IH]; simpl; intros l H p.
  - inversion H; subst. simpl. tauto.
  - destruct (lstat_isDirectory path d) as [keep|e] eqn:S; [|discriminate].
    destruct (only_directories d paths) as [kept|e]; [|discriminate].
    inversion H; subst. specialize (IH kept eq_refl p).
    destruct keep; simpl; rewrite IH; intuition (subst; congruence).
Qed.

(** Discovery never throws on a folder, and finds the entries that are
    folders. *)
Lemma catalog_In d p :
  In p (catalog d) <->
  exists name, p = join root name /\ In name (map fst (entries root d)) /\
               lstat_isDirectory p d = Ok true.
Proof.
  unfold catalog, directories_of, readdir, entries.
  destruct (lookup root d) as [[c|children]|] eqn:L;
    try (simpl; split; [tauto|intros (n & _ & [] & _)]).
  destruct (only_directories_total d root children L (map fst children))
    as (l & OK); [auto|].
  rewrite OK, (only_directories_In _ _ _ OK), in_map_iff. split.
  - intros ((name & <- & IN) & S). eauto.
  - intros (name & -> & IN & S). eauto.
Qed.

Lemma mkdirp_parent directory a p :
  forall node node',
    mkdirp (directory ++ a :: p) node = Some node' ->
    exists child,
      lookup directory node' =
        Some (Folder (upsert a child
                        match node with
                        | Some n => entries directory n
                        | None => []
                        end)).
Proof.
  unfold entries.
  induction directory as [|s rest IH]; intros node node' H.
  - cbn [app mkdirp] in H. cbn [lookup].
    destruct node as [[c|children]|]; [discriminate| |].
    + destruct (mkdirp p (assoc a children)) as [child|]; [|discriminate].
      inversion H; subst. eauto.
    + destruct (mkdirp p None) as [child|]; [|discriminate].
      inversion H; subst. eauto.
  - cbn [app mkdirp] in H.
    destruct node as [[c|children]|]; [discriminate| |].
    + destruct (mkdirp (rest ++ a :: p) (assoc s children)) as [child0|] eqn:M;
        [|discriminate].
      inversion H; subst. cbn [lookup]. rewrite assoc_upsert_same.
      destruct (IH _ _ M) as (child & ->). exists child.
      destruct (assoc s children); reflexivity.
    + destruct (mkdirp (rest ++ a :: p) None) as [child0|] eqn:M; [|discriminate].
      inversion H; subst. cbn [lookup assoc]. rewrite String.eqb_refl.
      destruct (IH _ _ M) as (child & ->). eauto.
Qed.

Lemma truncate_parent directory a p :
  forall node node',
    truncate (directory ++ a :: p) node = Some node' ->
    exists child,
      lookup directory node' = Some (Folder (upsert a child (entries directory node))).
Proof.
  unfold entries.
  induction directory as [|s rest IH]; intros node node' H.
  - cbn [app] in H. cbn [lookup]. simpl in H.
    destruct p as [|next p].
    + destruct node as [c|children]; [discriminate|].
      destruct (assoc a children) as [[c|ch]|]; inversion H; subst; eauto.
    + destruct node as [c|children]; [discriminate|].
      destruct (assoc a children) as [child|]; [|discriminate].
      destruct (truncate (next :: p) child) as [child'|]; [|discriminate].
      inversion H; subst. eauto.
  - cbn [app] in H. simpl in H.
    destruct (rest ++ a :: p) as [|next rest'] eqn:E;
      [destruct rest; discriminate|].
    destruct node as [c|children]; [discriminate|].
    destruct (assoc s children) as [child0|] eqn:A; [|discriminate].
    destruct (truncate (next :: rest') child0) as [child'|] eqn:T; [|discriminate].
    inversion H; subst. cbn [lookup]. rewrite assoc_upsert_same, A.
    rewrite <- E in T, IH. destruct (IH _ _ T) as (child & ->). eauto.
Qed.

Lemma create_entries title w w' :
  create title w = (w', Ok tt) ->
  forall name,
    In name (map fst (entries root (disk w'))) <->
    join root name = unit_folder title (clock w) \/
    In name (map fst (entries root (disk w))).
Proof.
  unfold create, bind, Date_now, mkdirSync, touch.
  change (join (join dirname "migration")
               (show_bigint (clock w) ++ "-" ++ upperFirst (camelCase title))%string)
    with (unit_folder title (clock w)).
  unfold unit_folder.
  set (entry := (show_bigint (clock w) ++ "-" ++ upperFirst (camelCase title))%string).
  destruct (mkdirp (join root entry) (Some (disk w))) as [n1|] eqn:M; [|discriminate].
  cbn [disk set_disk].
  destruct (truncate (join (join root entry) "up.sql") n1) as [n2|] eqn:T1;
    [|discriminate].
  cbn [disk set_disk].
  destruct (truncate (join (join root entry) "down.sql") n2) as [n3|] eqn:T2;
    [|discriminate].
  intros H. inversion H; subst w'. cbn [disk set_disk]. intros name.
  unfold join in M, T1, T2. rewrite <- app_assoc in T1, T2. cbn [app] in T1, T2.
  destruct (mkdirp_parent _ _ _ _ _ M) as (c1 & L1).
  destruct (truncate_parent _ _ _ _ _ T1) as (c2 & L2).
  destruct (truncate_parent _ _ _ _ _ T2) as (c3 & L3).
  unfold entries at 1. rewrite L3. unfold entries at 1. rewrite L2.
  unfold entries at 1. rewrite L1.
  rewrite !In_upsert. unfold join. split.
  - intros [->|[->|[->|IN]]]; auto.
  - intros [E|IN]; [|auto]. apply app_inj_tail in E. destruct E as [_ ->]. auto.
Qed.

(** X20.  After [create] has returned, discovery finds the folder it made,
    and beside it exactly the unit folders it found before: no unit is lost
    from the catalog and none appears but the new one. *)
Theorem create_adds_its_unit_to_the_catalog
    (title : string) (w w' : World) (d : Path) :
  create title w = (w', Ok tt) ->
  In d (catalog (disk w')) <->
  d = unit_folder title (clock w) \/ In d (catalog (disk w)).
Proof.
  intros C. destruct (create_spec _ _ _ C) as (_ & _ & S & _).
  destruct (create_disk _ _ _ _ C) as (_ & _ & _ & _ & _ & _ & _ & _ & _ & DISK).
  pose proof (create_entries _ _ _ C) as EN.
  assert (forall name, join root name <> unit_folder title (clock w) ->
            lstat_isDirectory (join root name) (disk w')
              = lstat_isDirectory (join root name) (disk w)) as SAME.
  { intros name N. unfold lstat_isDirectory, join.
    rewrite (DISK root name []); [reflexivity|].
    unfold unit_folder, join in *. eexists. split; [reflexivity|].
    cbn beta iota. intros E. apply N. rewrite E. reflexivity. }
  rewrite !catalog_In. split.
  - intros (name & -> & IN & DIR).
    destruct (list_eq_dec string_dec (join root name) (unit_folder title (clock w)))
      as [E|N]; [left; exact E|right].
    exists name. rewrite <- (SAME name N). apply EN in IN.
    destruct IN as [E|IN]; [contradiction|auto].
  - intros [->|(name & -> & IN & DIR)].
    + unfold unit_folder at 1. eexists. split; [reflexivity|]. split; [|exact S].
      apply EN. left. reflexivity.
    + destruct (list_eq_dec string_dec (join root name) (unit_folder title (clock w)))
        as [E|N].
      * exists name. split; [reflexivity|]. split; [apply EN; auto|].
        rewrite E. exact S.
      * exists name. rewrite (SAME name N). split; [reflexivity|].
        split; [apply EN; auto|exact DIR].
Qed.

(** ** What a run that returns has achieved *)

Lemma applied_version_key (db : Database) v :
  includes (applied_versions db) v = true ->
  exists k, v = show_bigint k /\ In k (applied_keys db).
Proof.
  intros INC. apply includes_In in INC. unfold applied_versions in INC.
  apply in_map_iff in INC. destruct INC as (k & <- & IN). eauto.
Qed.





(** ** Versions that are not the decimal text of their key *)

Lemma not_canonical_not_applied (db : Database) d :
  (forall k, fst (unit_id d) <> show_bigint k) ->
  includes (applied_versions db) (fst (unit_id d)) = false.
Proof.
  intros N. destruct (includes (applied_versions db) (fst (unit_id d))) eqn:INC;
    [|reflexivity].
  destruct (applied_version_key _ _ INC) as (k & V & _). destruct (N k V).
Qed.

(** X23.  The runner compares version texts, the server compares numbers.  A
    unit whose folder writes its key otherwise than the server prints it
    (["007-x"] for key 7) is never recognised as applied.  Once its key is in
    the table, every run of [migrate] that reaches it tries to insert it
    again and throws; and [rollback] never reverts it: its row stays in the
    table as long as no other folder carries the key. *)
Theorem a_version_the_server_prints_otherwise_is_never_seen_as_applied
    (w : World) (d : Path) (row : Row) :
  block w = Idle ->
  In d (catalog (disk w)) ->
  (forall k, fst (unit_id d) <> show_bigint k) ->
  key_of d = Some (version row) ->
  In row (applied_rows (durable w)) ->
  (falsy (script_of (disk w) d "up.sql") = false ->
   forall w' r, migrate w = (w', r) -> exists e, r = Throw e) /\
  ((forall d', In d' (catalog (disk w)) -> key_of d' = Some (version row) ->
               d' = d) ->
   forall all w' r,
     rollback all w = (w', r) -> In row (applied_rows (durable w'))).
Proof.
  intros I IN N K INR. split.
  - intros F w' r H. destruct r as [[]|e]; [exfalso|eauto].
    destruct (migrate_spec _ _ _ I H)
      as (done & todo & new_rows & attempt & P & FIN & _ & AR & _ & INS & _).
    destruct (FIN eq_refl) as (-> & _). rewrite app_nil_r in P.
    destruct (migrate_fresh _ _ _ I H) as (new_rows' & AR' & _ & DISJ).
    rewrite AR in AR'. apply app_inv_head in AR'. subst new_rows'.
    assert (In (up_step (disk w) d) done) as STEP.
    { rewrite <- P. unfold migrate_plan. apply in_map. apply filter_In.
      split; [exact IN|]. unfold to_apply.
      rewrite (not_canonical_not_applied _ _ N), F. reflexivity. }
    destruct (Forall2_In_left _ _ _ _ INS STEP) as (row' & INR' & K' & _).
    unfold up_step in K'. cbn [step_version] in K'.
    unfold key_of in K. rewrite K in K'. inversion K' as [E].
    apply (DISJ (version row')).
    + unfold keys. apply in_map. exact INR'.
    + rewrite <- E. unfold applied_keys, keys. apply in_map. exact INR.
  - intros ONLY all w' r H.
    destruct (rollback_spec _ _ _ _ I H) as (done & todo & attempt & P & _ & _ & TB & _).
    apply applied_rows_after_rollback in TB. rewrite TB.
    apply filter_In. split; [exact INR|].
    destruct (deleted_by done row) eqn:D; [exfalso|reflexivity].
    unfold deleted_by in D. apply existsb_exists in D.
    destruct D as (s & Hs & E).
    destruct (sql_bigint (step_version s)) as [k|] eqn:Ks; [|discriminate].
    apply Z.eqb_eq in E. subst k.
    assert (In s (rollback_plan (disk w) (applied_versions (durable w))
                                (rev (catalog (disk w))))) as PL.
    { assert (In s (limit all 0 (rollback_plan (disk w) (applied_versions (durable w))
                                               (rev (catalog (disk w))))))
        as L by (rewrite P; apply in_or_app; left; assumption).
      unfold limit in L. destruct all; [assumption|].
      destruct (rollback_plan (disk w) (applied_versions (durable w))
                              (rev (catalog (disk w)))); simpl in L;
        [contradiction|]. destruct L as [->|[]]. left. reflexivity. }
    destruct (rollback_plan_In _ _ _ _ PL) as (d' & Hd' & R & ->).
    apply in_rev in Hd'. unfold down_step in Ks. cbn [step_version] in Ks.
    assert (d' = d) as -> by (apply ONLY; assumption).
    unfold to_revert in R. rewrite (not_canonical_not_applied _ _ N) in R.
    discriminate.
Qed.

End Decimal.

End Properties.

(** * The theorems on the concrete server *)

Lemma read_bigint_show (k : Z) :
  sql_bigint (Postgres := fixture) (show_bigint k) = Some k.
Proof.
  unfold sql_bigint, fixture, read_bigint, show_bigint.
  rewrite NilZero.isi.
  - simpl. rewrite DecimalZ.of_to. reflexivity.
  - destruct k; simpl; try discriminate.
    intros H. inversion H as [E]. exact (DecimalPos.Unsigned.to_uint_nonnil _ E).
  - destruct k; simpl; try discriminate.
    intros H. inversion H as [E]. exact (DecimalPos.Unsigned.to_uint_nonnil _ E).
Qed.

(** ** C1 on a script whose second statement fails *)

Lemma failed_up_script_leaves_no_trace_witness :
  (exists e,
     Throw (A := unit) (DatabaseError "cannot run: CREATE users") = Throw e) /\
  durable failing_unit_after = durable failing_unit /\
  console failing_unit_after = console failing_unit /\
  leased failing_unit_after = leased failing_unit /\
  (forall w1, pool_connect failing_unit = (w1, Ok tt) ->
     exists before,
       wire failing_unit_after =
         wire failing_unit ++
         Acquire :: map Send (before ++ [ROLLBACK]) ++ [Release]) /\
  (oracle failing_unit = [] ->
     Throw (A := unit) (DatabaseError "cannot run: CREATE users")
       = Throw (DatabaseError "cannot run: CREATE users") /\
     block failing_unit_after = Idle /\
     executed failing_unit_after =
       executed failing_unit ++ ["CREATE users;CREATE users"] /\
     wire failing_unit_after =
       wire failing_unit ++
       [Acquire; Send BEGIN;
        Send (BATCH [INSERT_INTO_Migration "5" (interpolate (Some "AddUsers"));
                     SCRIPT "CREATE users;CREATE users"]);
        Send ROLLBACK; Release]) /\
  (["CREATE users;CREATE users"] <> [] ->
     exists k, sql_bigint (Postgres := fixture) "5" = Some k /\
               ~ In k (applied_keys (durable failing_unit_after))).
Proof.
  apply (failed_up_script_leaves_no_trace (pg := fixture) (tc := keywords)
           [] ["migration"; "5-AddUsers"] [] "5" (Some "AddUsers")
           "CREATE users;CREATE users" failing_unit
           (mkDatabase (pg := fixture) (Some [mkRow 5 "AddUsers"]) ["users"])
           ["CREATE users;CREATE users"]
           (DatabaseError "cannot run: CREATE users"));
    vm_compute; reflexivity.
Defined.

(** An up-script that commits by itself: the INSERT and the first statement
    are committed by the script's COMMIT, the next statement fails, and the
    runner's ROLLBACK finds nothing left to take back.  The run has thrown,
    and the unit's row and the table it made are there. *)
Lemma an_up_script_that_commits_leaves_a_trace :
  Verbatim.migrate_loop (tc := keywords) [] [["migration"; "5-AddUsers"]]
                        commits_midway
    = (commits_midway_after, Throw (DatabaseError "cannot run: CREATE users")) /\
  applied_rows (durable commits_midway) = [] /\
  schema (durable commits_midway) = [] /\
  applied_rows (durable commits_midway_after) = [mkRow 5 "AddUsers"] /\
  schema (durable commits_midway_after) = ["users"] /\
  console commits_midway_after = [] /\
  wire commits_midway_after =
    [Acquire; Send BEGIN;
     Send (BATCH [INSERT_INTO_Migration "5" "AddUsers";
                  SCRIPT "CREATE users;COMMIT;CREATE users"]);
     Send ROLLBACK; Release].
Proof. vm_compute. repeat split. Qed.

(** The script did run its first statement before it failed. *)
Example failing_unit_partial_effect :
  run_script "CREATE users;CREATE users" [] =
    (["users"], Some "cannot run: CREATE users") /\
  executed failing_unit_after = ["CREATE users;CREATE users"] /\
  schema (durable failing_unit_after) = [].
Proof. vm_compute. repeat split. Qed.

(** ** C3, C2 and C6 on a fresh database *)

Example fresh_migrates :
  run_migrate fresh = (migrated, Ok tt) /\
  applied_keys (durable migrated) = [1; 2; 3]%Z /\
  schema (durable migrated) = ["users"; "orders"; "items"] /\
  console migrated =
    [MIGRATED "1" (Some "CreateUsers"); MIGRATED "2" (Some "CreateOrders");
     MIGRATED "3" (Some "CreateItems")].
Proof. vm_compute. repeat split. Qed.



Lemma empty_up_script_is_never_applied_witness :
  (forall migrations rest (w0 : @World fixture),
     disk w0 = disk with_empty_up ->
     migrate_loop migrations (["migration"; "2-Later"] :: rest) w0 =
     migrate_loop migrations rest w0) /\
  ~ In 2%Z (applied_keys (durable (fst (run_migrate with_empty_up)))) /\
  disk (fst (run_migrate with_empty_up)) = disk with_empty_up.
Proof.
  apply (empty_up_script_is_never_applied (pg := fixture)
           ["migration"; "2-Later"] 2%Z with_empty_up
           (fst (run_migrate with_empty_up)) (snd (run_migrate with_empty_up)));
    try (vm_compute; reflexivity).
  - vm_compute. right. left. reflexivity.
  - intros other [<-|[<-|[<-|[]]]]; vm_compute; intros H;
      try reflexivity; discriminate.
  - vm_compute. tauto.
Defined.

Example with_empty_up_migrates :
  snd (run_migrate with_empty_up) = Ok tt /\
  applied_keys (durable (fst (run_migrate with_empty_up))) = [1; 3]%Z /\
  applied_keys (durable (fst (run_migrate (fst (run_migrate with_empty_up)))))
    = [1; 3]%Z.
Proof. vm_compute. repeat split. Qed.


(** ** C4, C5 and C7 on applied units *)


(** Keys 1 < 2 < 3 applied: a first [rollback] reverts 3 only, a second one
    reverts 2 only. *)
Example rollback_twice_on_three_units :
  snd (run_rollback false three_applied) = Ok tt /\
  console rolled_back_once = [REVERTED "3" (Some "CreateItems")] /\
  applied_keys (durable rolled_back_once) = [1; 2]%Z /\
  schema (durable rolled_back_once) = ["users"; "orders"] /\
  snd (run_rollback false rolled_back_once) = Ok tt /\
  console rolled_back_twice =
    [REVERTED "3" (Some "CreateItems"); REVERTED "2" (Some "CreateOrders")] /\
  applied_keys (durable rolled_back_twice) = [1]%Z /\
  schema (durable rolled_back_twice) = ["users"].
Proof. vm_compute. repeat split. Qed.


Example rollback_all_on_three_units :
  snd (run_rollback true three_applied) = Ok tt /\
  console rolled_back_all =
    [REVERTED "3" (Some "CreateItems"); REVERTED "2" (Some "CreateOrders");
     REVERTED "1" (Some "CreateUsers")] /\
  applied_keys (durable rolled_back_all) = [] /\
  schema (durable rolled_back_all) = [].
Proof. vm_compute. repeat split. Qed.




(** ** C8 on a connection lost during the script *)



(** ** C9 on two calls of [create] *)

Lemma create_takes_its_key_from_the_clock_witness :
  let key1 := clock empty_catalog in
  let key2 := clock (elapse 5 created_once) in
  key2 = (key1 + 5)%Z /\
  ((key1 < key2)%Z <-> (0 < 5)%Z) /\
  (lstat_isDirectory
     (unit_folder (lodash := words) "add users" key1)
     (disk created_once) = Ok true /\
   readFile
     (join (unit_folder (lodash := words) "add users" key1) "up.sql")
     (disk created_once) = Ok EmptyString /\
   readFile
     (join (unit_folder (lodash := words) "add users" key1) "down.sql")
     (disk created_once) = Ok EmptyString) /\
  (lstat_isDirectory
     (unit_folder (lodash := words) "add orders" key2)
     (disk (fst (run_create "add orders" (elapse 5 created_once)))) = Ok true /\
   readFile
     (join (unit_folder (lodash := words) "add orders" key2) "up.sql")
     (disk (fst (run_create "add orders" (elapse 5 created_once)))) = Ok EmptyString /\
   readFile
     (join (unit_folder (lodash := words) "add orders" key2) "down.sql")
     (disk (fst (run_create "add orders" (elapse 5 created_once)))) = Ok EmptyString) /\
  ((0 <= key1)%Z ->
   key_of (pg := fixture)
          (unit_folder (lodash := words) "add users" key1)
     = Some key1) /\
  ((0 <= key2)%Z ->
   key_of (pg := fixture)
          (unit_folder (lodash := words) "add orders" key2)
     = Some key2).
Proof.
  apply (create_takes_its_key_from_the_clock (pg := fixture) (lodash := words)
           read_bigint_show
           "add users" "add orders" 5%Z empty_catalog created_once
           (fst (run_create "add orders" (elapse 5 created_once))));
    vm_compute; reflexivity.
Defined.

(** Two calls within one millisecond: the clock reads the same, and so do
    the keys of the two units. *)
Lemma create_twice_in_one_millisecond :
  run_create "add users" empty_catalog = (created_once, Ok tt) /\
  snd (run_create "add orders" created_once) = Ok tt /\
  catalog (disk (fst (run_create "add orders" created_once)))
    = [["migration"; "1700000000000-AddUsers"];
       ["migration"; "1700000000000-AddOrders"]] /\
  map (key_of (pg := fixture))
      (catalog (disk (fst (run_create "add orders" created_once))))
    = [Some 1700000000000; Some 1700000000000]%Z /\
  ~ (1700000000000 < 1700000000000)%Z.
Proof. split; [vm_compute; reflexivity|]. vm_compute. repeat split. discriminate. Qed.

(** ** C10 on a database [migrate] never ran on *)

Lemma rollback_needs_the_table_witness :
  (exists e, snd (run_rollback false fresh) = Throw e) /\
  durable (fst (run_rollback false fresh)) = durable fresh /\
  console (fst (run_rollback false fresh)) = console fresh /\
  executed (fst (run_rollback false fresh)) = executed fresh /\
  exited (fst (run_rollback false fresh)) = exited fresh /\
  (oracle fresh = [] ->
   (exists directories, directories_of (disk fresh) root = Ok directories) ->
   snd (run_rollback false fresh)
     = Throw (DatabaseError "relation Migration does not exist")) /\
  (oracle fresh = [] ->
   exists w1 x,
     transaction [CREATE_TABLE_IF_NOT_EXISTS_Migration] fresh
       = (w1, Ok x) /\
     Migration (durable w1) = Some []).
Proof.
  apply (rollback_needs_the_table (pg := fixture) false fresh
           (fst (run_rollback false fresh)) (snd (run_rollback false fresh)));
    vm_compute; reflexivity.
Defined.

Example rollback_on_fresh :
  snd (run_rollback false fresh)
    = Throw (DatabaseError "relation Migration does not exist") /\
  exited (fst (run_rollback false fresh)) = false /\
  snd (run_rollback true fresh)
    = Throw (DatabaseError "relation Migration does not exist").
Proof. vm_compute. repeat split. Qed.

(** ** The further properties on the concrete server *)

Lemma a_run_exits_exactly_when_it_returns_witness :
  exited migrated = true /\
  exited (fst (run_rollback false fresh)) = exited fresh.
Proof.
  split.
  - apply (a_run_exits_exactly_when_it_returns (pg := fixture)
             false fresh migrated (Ok tt)).
    left. vm_compute; reflexivity.
  - apply (a_run_exits_exactly_when_it_returns (pg := fixture)
             false fresh (fst (run_rollback false fresh))
             (Throw (DatabaseError "relation Migration does not exist"))).
    right. vm_compute; reflexivity.
Defined.

Lemma a_run_returns_its_clients_and_keeps_the_catalog_witness :
  leased (fst (run_migrate lost_connection)) = leased lost_connection /\
  disk (fst (run_migrate lost_connection)) = disk lost_connection /\
  clock (fst (run_migrate lost_connection)) = clock lost_connection.
Proof.
  apply (a_run_returns_its_clients_and_keeps_the_catalog (pg := fixture)
           false lost_connection (fst (run_migrate lost_connection))
           (snd (run_migrate lost_connection))).
  left. vm_compute; reflexivity.
Defined.

Lemma getDirectories_lists_the_folders_witness :
  getDirectories ["migration"] with_readme =
    (with_readme,
     Ok (map (fun child => join ["migration"] (fst child))
             (filter (fun child => is_folder (snd child))
                     [("1-CreateUsers", unit_node "CREATE users" "DROP users");
                      ("2-README.md", File "how to write a migration");
                      ("3-CreateItems", unit_node "CREATE items" "DROP items")]))).
Proof.
  apply (getDirectories_lists_the_folders (pg := fixture)).
  - vm_compute; reflexivity.
  - repeat constructor; simpl; intuition discriminate.
Defined.

Example with_readme_discovery :
  getDirectories ["migration"] with_readme =
    (with_readme,
     Ok [["migration"; "1-CreateUsers"]; ["migration"; "3-CreateItems"]]).
Proof. vm_compute. reflexivity. Qed.

Lemma discovery_failure_stops_the_run_witness :
  rollback false no_catalog = (no_catalog, Throw (SystemError "ENOENT")) /\
  migrate no_catalog =
    (fst (run_transaction [CREATE_TABLE_IF_NOT_EXISTS_Migration] no_catalog),
     Throw (SystemError "ENOENT")) /\
  Migration
    (durable (fst (run_transaction [CREATE_TABLE_IF_NOT_EXISTS_Migration] no_catalog)))
    = Some [].
Proof.
  assert (directories_of (disk no_catalog) root = Throw (SystemError "ENOENT")) as D
    by (vm_compute; reflexivity).
  destruct (discovery_failure_stops_the_run (pg := fixture)
              false (SystemError "ENOENT") no_catalog D) as [R M].
  assert (transaction [CREATE_TABLE_IF_NOT_EXISTS_Migration] no_catalog =
            (fst (run_transaction [CREATE_TABLE_IF_NOT_EXISTS_Migration] no_catalog),
             Ok [])) as TX by (vm_compute; reflexivity).
  destruct (M _ _ TX) as [E T].
  split; [exact R|]. split; [exact E|exact (T eq_refl)].
Defined.

Example no_catalog_migrate :
  snd (run_migrate no_catalog) = Throw (SystemError "ENOENT") /\
  Migration (durable (fst (run_migrate no_catalog))) = Some [] /\
  Migration (durable no_catalog) = None.
Proof. vm_compute. repeat split. Qed.

Lemma unit_id_cuts_at_the_dashes_witness :
  unit_id (join ["migration"] ("7" ++ "-" ++ "add")%string) = ("7", Some "add") /\
  unit_id (join ["migration"] ("7" ++ "-" ++ "add" ++ "-" ++ "users")%string)
    = ("7", Some "add").
Proof.
  apply (unit_id_cuts_at_the_dashes ["migration"] "7" "add" "users");
    reflexivity.
Defined.

Lemma unit_id_without_a_dash_witness :
  unit_id (join ["migration"] "notes") = ("notes", None) /\
  migrate_loop [] [join ["migration"] "notes"] stray_folder =
    (transaction [INSERT_INTO_Migration "notes" "undefined"; SCRIPT "CREATE notes"] ;;;
     console_log (MIGRATED "notes" None) ;;;
     migrate_loop [] []) stray_folder.
Proof.
  apply (unit_id_without_a_dash (pg := fixture)
           [] ["migration"] [] "notes" "CREATE notes" stray_folder);
    vm_compute; reflexivity.
Defined.

Example stray_folder_migrate :
  snd (run_migrate stray_folder) =
    Throw (DatabaseError "invalid input for type bigint").
Proof. vm_compute. reflexivity. Qed.


Lemma migrate_runs_each_unit_in_a_transaction_of_its_own_witness :
  wire migrated =
    wire fresh ++
    committed_exchange [CREATE_TABLE_IF_NOT_EXISTS_Migration] ++
    committed_exchange [SELECT_FROM_Migration] ++
    flat_map (fun s => committed_exchange (insert_batch s))
             (map (up_step (disk fresh))
                  (filter (to_apply (disk fresh) (applied_versions (durable fresh)))
                          (catalog (disk fresh)))).
Proof.
  apply (migrate_runs_each_unit_in_a_transaction_of_its_own (pg := fixture)
           fresh migrated);
    vm_compute; reflexivity.
Defined.

Example fresh_migrate_wire :
  wire migrated =
    committed_exchange [CREATE_TABLE_IF_NOT_EXISTS_Migration] ++
    committed_exchange [SELECT_FROM_Migration] ++
    committed_exchange [INSERT_INTO_Migration "1" "CreateUsers"; SCRIPT "CREATE users"] ++
    committed_exchange [INSERT_INTO_Migration "2" "CreateOrders"; SCRIPT "CREATE orders"] ++
    committed_exchange [INSERT_INTO_Migration "3" "CreateItems"; SCRIPT "CREATE items"].
Proof. vm_compute. reflexivity. Qed.

Lemma rollback_runs_each_unit_in_a_transaction_of_its_own_witness :
  wire rolled_back_all =
    wire three_applied ++
    committed_exchange [SELECT_FROM_Migration] ++
    flat_map (fun s => committed_exchange (delete_batch s))
             (limit true 0
                (map (down_step (disk three_applied))
                     (filter (to_revert (disk three_applied)
                                        (applied_versions (durable three_applied)))
                             (rev (catalog (disk three_applied)))))).
Proof.
  apply (rollback_runs_each_unit_in_a_transaction_of_its_own (pg := fixture)
           true three_applied rolled_back_all);
    vm_compute; reflexivity.
Defined.

Example rollback_all_wire :
  wire rolled_back_all =
    committed_exchange [SELECT_FROM_Migration] ++
    committed_exchange [DELETE_FROM_Migration "3"; SCRIPT "DROP items"] ++
    committed_exchange [DELETE_FROM_Migration "2"; SCRIPT "DROP orders"] ++
    committed_exchange [DELETE_FROM_Migration "1"; SCRIPT "DROP users"] /\
  wire rolled_back_once =
    committed_exchange [SELECT_FROM_Migration] ++
    committed_exchange [DELETE_FROM_Migration "3"; SCRIPT "DROP items"].
Proof. vm_compute. repeat split. Qed.

Lemma migrate_inserts_fresh_and_distinct_keys_witness :
  exists new_rows,
    applied_rows (durable migrated) = applied_rows (durable fresh) ++ new_rows /\
    NoDup (keys new_rows) /\
    (forall k, In k (keys new_rows) -> ~ In k (applied_keys (durable fresh))) /\
    (NoDup (applied_keys (durable fresh)) -> NoDup (applied_keys (durable migrated))).
Proof.
  apply (migrate_inserts_fresh_and_distinct_keys (pg := fixture)
           fresh migrated (Ok tt));
    vm_compute; reflexivity.
Defined.


Example same_key_migrate :
  snd (run_migrate same_key) =
    Throw (DatabaseError "duplicate key value violates unique constraint") /\
  applied_rows (durable (fst (run_migrate same_key))) = [mkRow 7 "AddOrders"] /\
  schema (durable (fst (run_migrate same_key))) = ["orders"].
Proof. vm_compute. repeat split. Qed.

Lemma a_unit_without_its_script_fails_the_run_witness :
  (exists e', snd (run_migrate with_shared) = Throw e') /\
  (exists e', snd (run_rollback true down_missing) = Throw e').
Proof.
  split.
  - assert (In ["migration"; "shared"] (catalog (disk with_shared))) as IN
      by (vm_compute; right; left; reflexivity).
    apply (proj1 (a_unit_without_its_script_fails_the_run (pg := fixture)
                    with_shared ["migration"; "shared"] (SystemError "ENOENT")
                    eq_refl IN)
                 eq_refl eq_refl
                 (fst (run_migrate with_shared)) (snd (run_migrate with_shared))).
    vm_compute; reflexivity.
  - assert (In ["migration"; "1-CreateUsers"] (catalog (disk down_missing))) as IN
      by (vm_compute; left; reflexivity).
    apply (proj2 (a_unit_without_its_script_fails_the_run (pg := fixture)
                    down_missing ["migration"; "1-CreateUsers"]
                    (SystemError "ENOENT") eq_refl IN)
                 eq_refl eq_refl
                 (fst (run_rollback true down_missing))
                 (snd (run_rollback true down_missing))).
    vm_compute; reflexivity.
Defined.

Example with_shared_migrate :
  snd (run_migrate with_shared) = Throw (SystemError "ENOENT") /\
  applied_rows (durable (fst (run_migrate with_shared))) = [mkRow 1 "CreateUsers"] /\
  snd (run_rollback true down_missing) = Throw (SystemError "ENOENT") /\
  durable (fst (run_rollback true down_missing)) = durable down_missing.
Proof. vm_compute. repeat split. Qed.

Lemma rollback_keeps_the_rows_of_units_it_cannot_see_witness :
  In (mkRow 99 "Gone") (applied_rows (durable (fst (run_rollback true orphan_row)))).
Proof.
  apply (rollback_keeps_the_rows_of_units_it_cannot_see (pg := fixture)
           true orphan_row (fst (run_rollback true orphan_row))
           (snd (run_rollback true orphan_row)) (mkRow 99 "Gone")).
  - reflexivity.
  - vm_compute; reflexivity.
  - vm_compute. right. left. reflexivity.
  - intros d H. vm_compute in H. destruct H as [<-|[]].
    vm_compute. discriminate.
Defined.

Example orphan_row_rollback :
  snd (run_rollback true orphan_row) = Ok tt /\
  applied_rows (durable (fst (run_rollback true orphan_row))) = [mkRow 99 "Gone"].
Proof. vm_compute. repeat split. Qed.



Lemma fetchMigrations_reads_the_versions_in_row_order_witness :
  durable (fst (fetchMigrations by_name_applied)) = durable by_name_applied /\
  executed (fst (fetchMigrations by_name_applied)) = executed by_name_applied /\
  console (fst (fetchMigrations by_name_applied)) = console by_name_applied /\
  disk (fst (fetchMigrations by_name_applied)) = disk by_name_applied /\
  leased (fst (fetchMigrations by_name_applied)) = leased by_name_applied /\
  (Migration (durable by_name_applied) = None ->
   exists e, snd (fetchMigrations by_name_applied) = Throw e) /\
  (forall migrations,
     snd (fetchMigrations by_name_applied) = Ok migrations ->
     migrations =
       map (fun row => show_bigint (version row))
           (applied_rows (durable by_name_applied)) /\
     wire (fst (fetchMigrations by_name_applied)) =
       wire by_name_applied ++ committed_exchange [SELECT_FROM_Migration]).
Proof.
  apply (fetchMigrations_reads_the_versions_in_row_order (pg := fixture)
           by_name_applied (fst (fetchMigrations by_name_applied))
           (snd (fetchMigrations by_name_applied)));
    vm_compute; reflexivity.
Defined.

Example by_name_applied_fetch :
  snd (fetchMigrations by_name_applied) = Ok ["9"; "10"].
Proof. vm_compute. reflexivity. Qed.



Example healthy_outcomes :
  outcome (map insert_batch
             (migrate_plan (disk fresh) (applied_versions (durable fresh))
                           (catalog (disk fresh))))
          (mkDatabase (pg := fixture) (Some []) []) = Ok tt /\
  outcome (map insert_batch
             (migrate_plan (disk same_key) (applied_versions (durable same_key))
                           (catalog (disk same_key))))
          (mkDatabase (pg := fixture) (Some []) [])
    = Throw (DatabaseError "duplicate key value violates unique constraint").
Proof. vm_compute. repeat split. Qed.

Lemma create_touches_nothing_but_its_folder_witness :
  durable (fst (run_create "add users" fresh)) = durable fresh /\
  wire (fst (run_create "add users" fresh)) = wire fresh /\
  console (fst (run_create "add users" fresh)) = console fresh /\
  leased (fst (run_create "add users" fresh)) = leased fresh /\
  exited (fst (run_create "add users" fresh)) = exited fresh /\
  clock (fst (run_create "add users" fresh)) = clock fresh /\
  (forall entry below,
     join root entry <> unit_folder (lodash := words) "add users" (clock fresh) ->
     lookup (join root entry ++ below) (disk (fst (run_create "add users" fresh)))
       = lookup (join root entry ++ below) (disk fresh)) /\
  (forall entry below,
     entry <> "migration"%string ->
     lookup (entry :: below) (disk (fst (run_create "add users" fresh)))
       = lookup (entry :: below) (disk fresh)).
Proof.
  apply (create_touches_nothing_but_its_folder (pg := fixture) (lodash := words)
           "add users" fresh (fst (run_create "add users" fresh))
           (snd (run_create "add users" fresh))).
  vm_compute; reflexivity.
Defined.

Lemma create_on_an_existing_unit_empties_its_scripts_witness :
  exists w',
    create (lodash := words) "add users" filled_in = (w', Ok tt) /\
    readFile (join (unit_folder (lodash := words) "add users" (clock filled_in))
                   "up.sql") (disk w')
      = Ok EmptyString /\
    readFile (join (unit_folder (lodash := words) "add users" (clock filled_in))
                   "down.sql") (disk w')
      = Ok EmptyString.
Proof.
  apply (create_on_an_existing_unit_empties_its_scripts (pg := fixture)
           (lodash := words) "add users" "CREATE users" "DROP users" filled_in);
    vm_compute; reflexivity.
Defined.

Example filled_in_create :
  disk filled_in =
    Folder [("migration",
             Folder [("1700000000000-AddUsers",
                      unit_node "CREATE users" "DROP users")])] /\
  disk (fst (run_create "add users" filled_in)) =
    Folder [("migration",
             Folder [("1700000000000-AddUsers", unit_node "" "")])].
Proof. vm_compute. repeat split. Qed.

Lemma a_created_unit_is_passed_over_witness :
  migrate_loop [] [unit_folder (lodash := words) "add users" (clock empty_catalog)]
               created_once
    = migrate_loop [] [] created_once /\
  rollback_loop true [] 0
                [unit_folder (lodash := words) "add users" (clock empty_catalog)]
                created_once
    = rollback_loop true [] 0 [] created_once.
Proof.
  apply (a_created_unit_is_passed_over (pg := fixture) (lodash := words)
           "add users" empty_catalog created_once created_once true [] 0 []).
  - vm_compute; reflexivity.
  - reflexivity.
Defined.

Lemma create_adds_its_unit_to_the_catalog_witness :
  In ["migration"; "2-CreateOrders"]
     (catalog (disk (fst (run_create "add users" fresh)))) <->
  ["migration"; "2-CreateOrders"]
    = unit_folder (lodash := words) "add users" (clock fresh) \/
  In ["migration"; "2-CreateOrders"] (catalog (disk fresh)).
Proof.
  apply (create_adds_its_unit_to_the_catalog (pg := fixture) (lodash := words)
           "add users" fresh (fst (run_create "add users" fresh))
           ["migration"; "2-CreateOrders"]).
  vm_compute; reflexivity.
Defined.

Example fresh_create_catalog :
  length (catalog (disk (fst (run_create "add users" fresh)))) = 4%nat /\
  In ["migration"; "1700000000000-AddUsers"]
     (catalog (disk (fst (run_create "add users" fresh)))).
Proof. vm_compute. split; [reflexivity|]. right. right. right. left. reflexivity. Qed.



Example migrate_then_rollback_all :
  applied_rows (durable migrated) =
    [mkRow 1 "CreateUsers"; mkRow 2 "CreateOrders"; mkRow 3 "CreateItems"] /\
  schema (durable migrated) = ["users"; "orders"; "items"] /\
  snd (run_rollback true migrated) = Ok tt /\
  applied_rows (durable (fst (run_rollback true migrated))) = [] /\
  schema (durable (fst (run_rollback true migrated))) = [].
Proof. vm_compute. repeat split. Qed.

Lemma a_version_the_server_prints_otherwise_is_never_seen_as_applied_witness :
  (exists e, snd (run_migrate padded) = Throw e) /\
  In (mkRow 7 "x") (applied_rows (durable (fst (run_rollback true padded)))).
Proof.
  assert (forall k, fst (unit_id ["migration"; "007-x"]) <> show_bigint k) as N.
  { intros k E. pose proof (read_bigint_show k) as R.
    rewrite <- E in R. vm_compute in R. inversion R; subst k.
    vm_compute in E. discriminate E. }
  assert (In ["migration"; "007-x"] (catalog (disk padded))) as IN
    by (vm_compute; left; reflexivity).
  assert (In (mkRow 7 "x") (applied_rows (durable padded))) as INR
    by (vm_compute; left; reflexivity).
  destruct (a_version_the_server_prints_otherwise_is_never_seen_as_applied
              (pg := fixture) padded ["migration"; "007-x"] (mkRow 7 "x")
              eq_refl IN N eq_refl INR) as [M R].
  split.
  - apply (M eq_refl (fst (run_migrate padded)) (snd (run_migrate padded))).
    vm_compute; reflexivity.
  - apply (R (fun d' H _ => match H with
                            | or_introl E => eq_sym E
                            | or_intror F => match F with end
                            end)
             true (fst (run_rollback true padded)) (snd (run_rollback true padded))).
    vm_compute; reflexivity.
Defined.

Example padded_runs :
  key_of (pg := fixture) ["migration"; "007-x"] = Some 7%Z /\
  snd (run_migrate padded) =
    Throw (DatabaseError "duplicate key value violates unique constraint") /\
  snd (run_rollback true padded) = Ok tt /\
  applied_rows (durable (fst (run_rollback true padded))) = [mkRow 7 "x"] /\
  console (fst (run_rollback true padded)) = [].
Proof. vm_compute. repeat split. Qed.

Lemma failed_down_script_leaves_no_trace_witness :
  (exists e,
     Throw (A := unit) (DatabaseError "cannot run: DROP users") = Throw e) /\
  durable failing_down_after = durable failing_down /\
  console failing_down_after = console failing_down /\
  leased failing_down_after = leased failing_down /\
  (forall w1, pool_connect failing_down = (w1, Ok tt) ->
     exists before,
       wire failing_down_after =
         wire failing_down ++
         Acquire :: map Send (before ++ [ROLLBACK]) ++ [Release]) /\
  (oracle failing_down = [] ->
     Throw (A := unit) (DatabaseError "cannot run: DROP users")
       = Throw (DatabaseError "cannot run: DROP users") /\
     block failing_down_after = Idle /\
     executed failing_down_after =
       executed failing_down ++ ["DROP users;DROP users"] /\
     wire failing_down_after =
       wire failing_down ++
       [Acquire; Send BEGIN;
        Send (BATCH [DELETE_FROM_Migration "1"; SCRIPT "DROP users;DROP users"]);
        Send ROLLBACK; Release]).
Proof.
  apply (failed_down_script_leaves_no_trace (pg := fixture) (tc := keywords)
           true ["1"] 0 ["migration"; "1-CreateUsers"] [] "1" (Some "CreateUsers")
           "DROP users;DROP users" failing_down
           (mkDatabase (pg := fixture) (Some []) [])
           ["DROP users;DROP users"]
           (DatabaseError "cannot run: DROP users"));
    vm_compute; reflexivity.
Defined.

(** A down-script that commits by itself before the statement that fails:
    the row is gone and the table dropped, though the run has thrown. *)
Example a_down_script_that_commits_leaves_a_trace :
  Verbatim.rollback_loop (tc := keywords) true ["1"] 0
                         [["migration"; "1-CreateUsers"]] commits_midway_down
    = (commits_midway_down_after,
       Throw (DatabaseError "cannot run: DROP users")) /\
  applied_rows (durable commits_midway_down_after) = [] /\
  schema (durable commits_midway_down_after) = [] /\
  console commits_midway_down_after = [].
Proof. vm_compute. repeat split. Qed.

(** The script did drop the table in the working copy before it failed. *)
Example failing_down_partial_effect :
  run_script "DROP users;DROP users" ["users"] =
    ([], Some "cannot run: DROP users") /\
  snd (run_rollback true failing_down) =
    Throw (DatabaseError "cannot run: DROP users") /\
  executed failing_down_after = ["DROP users;DROP users"] /\
  applied_rows (durable failing_down_after) = [mkRow 1 "CreateUsers"] /\
  schema (durable failing_down_after) = ["users"].
Proof. vm_compute. repeat split. Qed.

(** [create] where a regular file is in the way: [migration] itself, or the
    name of the unit folder. *)
Example create_with_a_file_in_the_way :
  snd (run_create "add users"
         (set_disk (Folder [("migration", File "not a folder")]) fresh))
    = Throw (SystemError "ENOTDIR") /\
  snd (run_create "add users"
         (set_disk (Folder [("migration",
                             Folder [("1700000000000-AddUsers", File "taken")])])
                   fresh))
    = Throw (SystemError "EEXIST").
Proof. vm_compute. repeat split. Qed.
